(** * chaos-theory: escape-time iteration, RK4 stepping and the Lorenz trajectory

    A shallow embedding of the numerical kernels of the three scripts
    [mandelbrot.py], [double_pendulum.py] and [lorenz.py].

    Python's [float] is IEEE 754 binary64, which is Rocq's primitive type
    [float]: [+], [-], [*], [/] and the comparisons below are the
    round-to-nearest-even machine operations, so every definition runs on
    concrete inputs.  Integers are modelled in [Z] (with the 64-bit wrap-around
    written out where the compiled code computes on machine integers).
    A raised Python exception is the result [None]. *)

From Stdlib Require Import ZArith List Lia Bool Floats.
From Stdlib Require Uint63.
From stdpp Require Import base list.

(* Decimal literals such as 0.1 denote the nearest binary64 value, as in Python. *)
Set Warnings "-inexact-float".

Local Open Scope Z_scope.

(** ** Python building blocks shared by the three scripts *)

(** Sequencing of computations that may raise. *)
Notation "'do' x <- m ; k" :=
  (match m with Some x => k | None => None end)
  (at level 10, x name, m at level 100, k at level 200, only parsing).

(** [range(lo, hi)]: the integers [lo, lo+1, ..., hi-1], empty when [hi <= lo]. *)
Definition py_range (lo hi : Z) : list Z :=
  map (fun k : nat => lo + Z.of_nat k) (seq 0 (Z.to_nat (hi - lo))).

(** [for k in idx: s = body(k, s)], stopping at the first exception. *)
Fixpoint for_each {S : Type} (idx : list Z) (body : Z -> S -> option S) (s : S)
  : option S :=
  match idx with
  | [] => Some s
  | k :: rest => do s' <- body k s; for_each rest body s'
  end.

(** True division [x / y] on scalar floats, in plain Python and in the
    compiled functions alike: [ZeroDivisionError] on a zero divisor (either
    sign), otherwise the IEEE quotient.  (Division of an array by a non-zero
    literal, as in [k1/2], is the IEEE quotient of each entry.) *)
Definition py_div (x y : float) : option float :=
  if (y =? 0)%float then None else Some (x / y)%float.

(** A signed 64-bit integer converted to binary64 (round to nearest even). *)
Definition float_of_int (n : Z) : float :=
  if n =? - 2 ^ 63 then (-9223372036854775808)%float
  else if n <? 0 then (- of_uint63 (Uint63.of_Z (- n)))%float
  else of_uint63 (Uint63.of_Z n).

(** [int(x)] on a float: truncation toward zero; [ValueError] on NaN and
    [OverflowError] on an infinity. *)
Definition py_int (x : float) : option Z :=
  match Prim2SF x with
  | S754_zero _ => Some 0
  | S754_finite s m e =>
      let v := if 0 <=? e then Z.pos m * 2 ^ e else Z.pos m / 2 ^ (- e) in
      Some (if s then - v else v)
  | S754_infinity _ | S754_nan => None
  end.

(** [x ** 2] with the literal exponent 2 is compiled to one multiplication. *)
Definition sqr (x : float) : float := (x * x)%float.

(** ** mandelbrot.py *)

Module Mandelbrot.

(** Python's [complex]: a pair of binary64 numbers. *)
Record Complex := complex { re : float; im : float }.

(** [u * v] on complex numbers: (a+bi)(c+di) = (ac - bd) + (ad + bc)i, each
    product and sum rounded. *)
Definition cmul (u v : Complex) : Complex :=
  complex (re u * re v - im u * im v)%float (re u * im v + im u * re v)%float.

(** [u + v] on complex numbers, componentwise. *)
Definition cadd (u v : Complex) : Complex :=
  complex (re u + re v)%float (im u + im v)%float.

(** Default values of [f]'s keyword parameters. *)
Definition default_max_iter : Z := 200.
Definition default_limit : float := 1e6%float.

(** The arguments [a, b, c, d] are Python numbers: the script passes integers
    ([-2, 1, -1, 1]), a caller may pass floats. *)
Inductive number :=
| Int (n : Z)
| Float (x : float).

(** Two's-complement wrap-around of the compiled 64-bit integer arithmetic. *)
Definition wrap64 (n : Z) : Z := (n + 2 ^ 63) mod 2 ^ 64 - 2 ^ 63.

Definition to_float (v : number) : float :=
  match v with
  | Int n => float_of_int n
  | Float x => x
  end.

Definition num_add (u v : number) : number :=
  match u, v with
  | Int m, Int n => Int (wrap64 (m + n))
  | _, _ => Float (to_float u + to_float v)%float
  end.

Definition num_sub (u v : number) : number :=
  match u, v with
  | Int m, Int n => Int (wrap64 (m - n))
  | _, _ => Float (to_float u - to_float v)%float
  end.

Definition num_mul (u v : number) : number :=
  match u, v with
  | Int m, Int n => Int (wrap64 (m * n))
  | _, _ => Float (to_float u * to_float v)%float
  end.

(** [u / v]: true division always yields a float. *)
Definition num_truediv (u v : number) : option number :=
  do q <- py_div (to_float u) (to_float v); Some (Float q).

(** The height grid: [heights[j, i]] is entry [i] of row [j]. *)
Abbreviation grid := (list (list float)).

(** [np.zeros((rows, cols))]; a negative dimension raises [ValueError]. *)
Definition np_zeros2 (rows cols : Z) : option grid :=
  if (rows <? 0) || (cols <? 0) then None
  else Some (replicate (Z.to_nat rows) (replicate (Z.to_nat cols) 0%float)).

(** [heights[j, i]] for the indices the loops use, which are never negative;
    [None] when an index is negative or out of range. *)
Definition get_cell (heights : grid) (j i : Z) : option float :=
  if (j <? 0) || (i <? 0) then None
  else do row <- heights !! Z.to_nat j; row !! Z.to_nat i.

(** [heights[j, i] = v], likewise. *)
Definition set_cell (heights : grid) (j i : Z) (v : float) : option grid :=
  if (j <? 0) || (i <? 0) then None
  else
    do row <- heights !! Z.to_nat j;
    if (Z.to_nat i <? length row)%nat
    then Some (<[Z.to_nat j := <[Z.to_nat i := v]> row]> heights)
    else None.

(** The sampled coordinate [lo + k*(hi-lo)/N]. *)
Definition coordinate (lo hi : number) (k N : Z) : option float :=
  do q <- num_truediv (num_mul (Int k) (num_sub hi lo)) (Int N);
  Some (to_float (num_add lo q)).

Section EscapeTime.

(** [np.abs] on a complex number is the library's magnitude function (C's
    [hypot] of the two parts).  It is code outside the repository, so the
    escape-time function takes it as a parameter. *)
Variable np_abs : Complex -> float.

(** The loop [for i in range(1, max_iter)]: the remaining indices, the
    current [z], and the number of loop bodies run so far.  Returns the
    value [f] returns, together with the number of times the map was applied
    and tested against [limit]. *)
Fixpoint f_loop (idx : list Z) (z c : Complex) (limit : float) (tests : nat)
  : Z * nat :=
  match idx with
  | [] => (-1, tests)
  | i :: rest =>
      let z := cadd (cmul z z) c in
      if (limit <? np_abs z)%float then (i, S tests)
      else f_loop rest z c limit (S tests)
  end.

Definition f_run (real imag : float) (max_iter : Z) (limit : float) : Z * nat :=
  f_loop (py_range 1 max_iter) (complex 0 0) (complex real imag) limit 0%nat.

(** [f(real, imag, max_iter, limit)]. *)
Definition f (real imag : float) (max_iter : Z) (limit : float) : Z :=
  fst (f_run real imag max_iter limit).

(** Number of applications of the quadratic map tested against the bound. *)
Definition f_tests (real imag : float) (max_iter : Z) (limit : float) : nat :=
  snd (f_run real imag max_iter limit).

(** The body of the two nested loops of [calc_heights], for column [i] and
    row [j]. *)
Definition cell_body (a b c d : number) (N i j : Z) (heights : grid)
  : option grid :=
  do x <- coordinate a b i N;
  do y <- coordinate c d j N;
  let iterations := f x y default_max_iter default_limit in
  if 0 <? iterations then set_cell heights j i (float_of_int iterations)
  else Some heights.

(** [calc_heights(a, b, c, d, N)]. *)
Definition calc_heights (a b c d : number) (N : Z) : option grid :=
  do heights <- np_zeros2 N N;
  for_each (py_range 0 N)
    (fun i hs => for_each (py_range 0 N) (fun j hs' => cell_body a b c d N i j hs') hs)
    heights.

End EscapeTime.

(** The orbit of the quadratic map z -> z*z + c: [orbit c n] is z_n, with
    z_0 = 0. *)
Definition quadratic_map (c z : Complex) : Complex := cadd (cmul z z) c.

Fixpoint orbit (c : Complex) (n : nat) : Complex :=
  match n with
  | O => complex 0 0
  | S n' => quadratic_map c (orbit c n')
  end.

(** The magnitude of z_i exceeds the bound. *)
Definition exceeds (np_abs : Complex -> float) (limit : float) (c : Complex) (i : Z)
  : Prop :=
  (limit <? np_abs (orbit c (Z.to_nat i)))%float = true.

(** The escape-time contract with an iteration budget: [r] is the first
    index in [1..budget] at which the bound is exceeded, or the sentinel [-1]
    when it is exceeded at no index in [1..budget]. *)
Definition escape_time (np_abs : Complex -> float) (budget : Z) (limit : float)
  (c : Complex) (r : Z) : Prop :=
  (r = -1 /\ forall i, 1 <= i <= budget -> ~ exceeds np_abs limit c i)
  \/
  (1 <= r <= budget /\ exceeds np_abs limit c r /\
   forall j, 1 <= j < r -> ~ exceeds np_abs limit c j).

(** What [calc_heights] stores in a cell whose sample returned [iterations]. *)
Definition height_of (iterations : Z) : float :=
  if 0 <? iterations then float_of_int iterations else 0%float.

(** The value of [iterations] in the body of the loops of [calc_heights] at
    column [i] and row [j]. *)
Definition iterations_at (np_abs : Complex -> float) (a b c d : number) (N i j : Z)
  : option Z :=
  do x <- coordinate a b i N;
  do y <- coordinate c d j N;
  Some (f np_abs x y default_max_iter default_limit).

(** A grid of [rows] rows of [cols] entries each. *)
Definition has_shape (rows cols : nat) (heights : grid) : Prop :=
  length heights = rows /\ Forall (fun row => length row = cols) heights.

(** Every cell [j, i] holds what the sample at column [i], row [j] gives. *)
Definition cells_follow_f (np_abs : Complex -> float) (a b c d : number) (N : Z)
  (heights : grid) : Prop :=
  forall i j, 0 <= i < N -> 0 <= j < N ->
    exists iterations,
      iterations_at np_abs a b c d N i j = Some iterations /\
      get_cell heights j i = Some (height_of iterations).

(** No sampled coordinate of the interval from [lo] to [hi] equals [hi]. *)
Definition excludes_endpoint (lo hi : number) (N : Z) : Prop :=
  forall k x, 0 <= k < N -> coordinate lo hi k N = Some x ->
    (x =? to_float hi)%float = false.

(** Integer limits [lo < hi] and a resolution [N] that binary64 samples
    without overlap: [N] takes at most [k] bits and the limits at most
    [52 - k] of the 53 bits of a mantissa. *)
Definition integer_window (k : Z) (lo hi : number) (N : Z) : Prop :=
  0 <= k <= 52 /\ N <= 2 ^ k /\
  match lo, hi with
  | Int l, Int h => - 2 ^ (52 - k) <= l /\ l < h /\ h <= 2 ^ (52 - k)
  | _, _ => False
  end.

(** The cells the loops have passed when they stand at column [I], row [J]. *)
Definition visited (I J i j : Z) : bool :=
  (i <? I) || ((i =? I) && (j <? J)).

(** The loop invariant of [calc_heights] at column [I], row [J]. *)
Definition heights_upto (np_abs : Complex -> float) (a b c d : number) (N I J : Z)
  (heights : grid) : Prop :=
  has_shape (Z.to_nat N) (Z.to_nat N) heights /\
  forall i j, 0 <= i < N -> 0 <= j < N ->
    exists iterations,
      iterations_at np_abs a b c d N i j = Some iterations /\
      get_cell heights j i
      = Some (if visited I J i j then height_of iterations else 0%float).

(** The claim that relates [calc_heights] to [f] and to the endpoints of the
    sampled intervals. *)
Definition heights_follow_f_and_exclude_endpoints (np_abs : Complex -> float)
  (a b c d : number) (N : Z) : Prop :=
  (exists heights, calc_heights np_abs a b c d N = Some heights /\
                   cells_follow_f np_abs a b c d N heights) /\
  excludes_endpoint a b N /\ excludes_endpoint c d N.

(** The script's own resolution and plotting limits. *)
Module Script.
Definition N : Z := 1000.
Definition a : number := Int (-2).
Definition b : number := Int 1.
Definition c : number := Int (-1).
Definition d : number := Int 1.
End Script.

(** A runnable magnitude function.  On the axes [hypot(x, 0)] and
    [hypot(0, y)] are exactly [|x|] and [|y|]; elsewhere the textbook formula
    is used. *)
Definition np_abs_model (z : Complex) : float :=
  if (im z =? 0)%float then PrimFloat.abs (re z)
  else if (re z =? 0)%float then PrimFloat.abs (im z)
  else PrimFloat.sqrt (re z * re z + im z * im z)%float.

End Mandelbrot.

(** ** double_pendulum.py *)

Module DoublePendulum.

Local Open Scope float_scope.

(** Physical properties and the time step. *)
Definition m1 : float := 0.1.
Definition m2 : float := 0.1.
Definition l1 : float := 0.3.
Definition l2 : float := 0.3.
Definition g : float := 9.8.
Definition h : float := 0.001.

(** The state [np.array([theta1, theta2, p1, p2])]. *)
Record vec4 := array4 { y_0 : float; y_1 : float; y_2 : float; y_3 : float }.

(** Elementwise array arithmetic: [c * u] and [u + v]. *)
Definition scale (c : float) (u : vec4) : vec4 :=
  array4 (c * y_0 u) (c * y_1 u) (c * y_2 u) (c * y_3 u).

Definition vadd (u v : vec4) : vec4 :=
  array4 (y_0 u + y_0 v) (y_1 u + y_1 v) (y_2 u + y_2 v) (y_3 u + y_3 v).

Definition zeros4 : vec4 := array4 0 0 0 0.

(** [u / 2], elementwise. *)
Definition halve (u : vec4) : vec4 :=
  array4 (y_0 u / 2) (y_1 u / 2) (y_2 u / 2) (y_3 u / 2).

(** The combination y + (1/6)*(k1 + 2*k2 + 2*k3 + k4). *)
Definition rk4_combine (y k1 k2 k3 k4 : vec4) : vec4 :=
  vadd y (scale (1 / 6) (vadd (vadd (vadd k1 (scale 2 k2)) (scale 2 k3)) k4)).

Section Slope.

(** [math.sin] and [math.cos] are library code. *)
Variables sin cos : float -> float.

(** [slope(y)]: the Hamiltonian equations of motion. *)
Definition slope (y : vec4) : option vec4 :=
  let theta1 := y_0 y in
  let theta2 := y_1 y in
  let p1 := y_2 y in
  let p2 := y_3 y in
  do A1 <- py_div (p1 * p2 * sin (theta1 - theta2))
                  (l1 * l2 * (m1 + m2 * sqr (sin (theta1 - theta2))));
  do inv <- py_div 1 (2 * sqr l1 * sqr l2 * sqr (m1 + m2 * sqr (sin (theta1 - theta2))));
  let A2 := inv * (sqr p1 * m2 * sqr l2 - 2 * p1 * p2 * m2 * l1 * l2 * cos (theta1 - theta2)
                   + sqr p2 * (m1 + m2) * sqr l1)
            * sin (2 * (theta1 - theta2)) in
  do theta_d1 <- py_div (p1 * l2 - p2 * l1 * cos (theta1 - theta2))
                        (sqr l1 * l2 * (m1 + m2 * sqr (sin (theta1 - theta2))));
  do theta_d2 <- py_div (p2 * (m1 + m2) * l1 - p1 * m2 * l2 * cos (theta1 - theta2))
                        (m2 * l1 * sqr l2 * (m1 + m2 * sqr (sin (theta1 - theta2))));
  let p1 := - (m1 + m2) * g * l1 * sin theta1 - A1 + A2 in
  let p2 := - m2 * g * l2 * sin theta2 + A1 - A2 in
  Some (array4 theta_d1 theta_d2 p1 p2).

(** [calc_energy(y)]: kinetic plus potential energy. *)
Definition calc_energy (y : vec4) : option float :=
  do k1 <- py_div (sqr (y_2 y)) (2 * m1);
  do k2 <- py_div (sqr (y_3 y)) (2 * m2);
  let kinetic_energy := k1 + k2 in
  let potential_energy :=
    m1 * g * l1 * cos (y_0 y) + m2 * g * (l1 * cos (y_0 y) + l2 * cos (y_1 y)) in
  Some (kinetic_energy + potential_energy).

(** [get_positions(y)]: the x and the y coordinates of the pivot and of the
    two bobs. *)
Definition get_positions (y : vec4) : list float * list float :=
  let x1 := l1 * sin (y_0 y) in
  let y1 := - l1 * cos (y_0 y) in
  let x2 := x1 + l2 * sin (y_1 y) in
  let y2 := y1 - l2 * cos (y_1 y) in
  ([0; x1; x2], [0; y1; y2]).

End Slope.

Section Integrator.

(** The derivative function the integrator calls. *)
Variable slope_fn : vec4 -> option vec4.

(** The body of the loop of [RK4]: one step of size [h]. *)
Definition RK4_body (y : vec4) : option vec4 :=
  do s1 <- slope_fn y;
  let y1 := scale h s1 in
  do s2 <- slope_fn (vadd y (scale 0.5 y1));
  let y2 := scale h s2 in
  do s3 <- slope_fn (vadd y (scale 0.5 y2));
  let y3 := scale h s3 in
  do s4 <- slope_fn (vadd y y3);
  let y4 := scale h s4 in
  Some (vadd y (scale (1 / 6) (vadd (vadd (vadd y1 (scale 2 y2)) (scale 2 y3)) y4))).

(** [RK4(y, steps)]: the array [y] is overwritten in place at each step and
    returned. *)
Definition RK4_with (y : vec4) (steps : Z) : option vec4 :=
  for_each (py_range 0 steps) (fun _ y => RK4_body y) y.

(** The classical fourth-order Runge-Kutta step as the specification words
    it: the stages k1 = h*slope(y), k2 = h*slope(y + k1/2),
    k3 = h*slope(y + k2/2), k4 = h*slope(y + k3), every slope evaluation
    returning a value. *)
Definition rk4_stages (y k1 k2 k3 k4 : vec4) : Prop :=
  (exists s, slope_fn y = Some s /\ k1 = scale h s) /\
  (exists s, slope_fn (vadd y (halve k1)) = Some s /\ k2 = scale h s) /\
  (exists s, slope_fn (vadd y (halve k2)) = Some s /\ k3 = scale h s) /\
  (exists s, slope_fn (vadd y k3) = Some s /\ k4 = scale h s).

End Integrator.

(** [RK4] as the script defines it, over its own [slope]. *)
Definition RK4 (sin cos : float -> float) (y : vec4) (steps : Z) : option vec4 :=
  RK4_with (slope sin cos) y steps.

(** What one call of [animate] hands to the plot: the data of the two lines
    and the text of the time label. *)
Record frame := Frame {
  line1 : list float * list float;
  line2 : list float * list float;
  time_label : Z
}.

(** [animate(i)]: the globals [y1] and [y2] are the pair [st]; the call draws
    both pendulums and then advances each by [steps = 10] steps. *)
Definition animate (sin cos : float -> float) (i : Z) (st : vec4 * vec4)
  : option (frame * (vec4 * vec4)) :=
  let steps := 10%Z in
  let drawn := Frame (get_positions sin cos (fst st)) (get_positions sin cos (snd st)) i in
  do y1 <- RK4 sin cos (fst st) steps;
  do y2 <- RK4 sin cos (snd st) steps;
  Some (drawn, (y1, y2)).

(** The globals after the calls [animate(0)], ..., [animate(k-1)]. *)
Definition animation_state (sin cos : float -> float) (k : Z) (st : vec4 * vec4)
  : option (vec4 * vec4) :=
  for_each (py_range 0 k) (fun i st => do r <- animate sin cos i st; Some (snd r)) st.

(** The state with both momenta reversed. *)
Definition reverse_momenta (y : vec4) : vec4 :=
  array4 (y_0 y) (y_1 y) (- y_2 y) (- y_3 y).

(** A derivative function that is identically zero. *)
Definition zero_slope (y : vec4) : option vec4 := Some zeros4.

(** Two floats hold the same number: they are the same value, or they are the
    two zeros. *)
Definition same_number (x y : float) : Prop :=
  x = y \/ ((x =? 0) = true /\ (y =? 0) = true).

Definition same_state (u v : vec4) : Prop :=
  same_number (y_0 u) (y_0 v) /\ same_number (y_1 u) (y_1 v) /\
  same_number (y_2 u) (y_2 v) /\ same_number (y_3 u) (y_3 v).

(** No component is the negative zero. *)
Definition no_negative_zero (u : vec4) : Prop :=
  y_0 u <> (-0) /\ y_1 u <> (-0) /\ y_2 u <> (-0) /\ y_3 u <> (-0).

End DoublePendulum.

(** ** lorenz.py *)

Module Lorenz.

Local Open Scope float_scope.

(** Constants; the integers [sigma = 10], [rho = 28] and [tf = 80] are
    promoted to floats in every expression they occur in. *)
Definition sigma : float := 10.
Definition beta : float := Eval vm_compute in (8 / 3).
Definition rho : float := 28.
Definition h : float := 0.01.
Definition tf : float := 80.

(** [N = int(tf/h)]. *)
Definition N : option Z := do q <- py_div tf h; py_int q.

(** A 3-vector [np.array([a, b, c])]. *)
Record vec3 := array3 { u_0 : float; u_1 : float; u_2 : float }.

Definition vmap (op : float -> float) (u : vec3) : vec3 :=
  array3 (op (u_0 u)) (op (u_1 u)) (op (u_2 u)).

Definition vadd (u v : vec3) : vec3 :=
  array3 (u_0 u + u_0 v) (u_1 u + u_1 v) (u_2 u + u_2 v).

(** [f(t, u)]: the Lorenz slope. *)
Definition f (t : float) (u : vec3) : vec3 :=
  array3 (sigma * (u_1 u - u_0 u))
         (u_0 u * (rho - u_2 u) - u_1 u)
         (u_0 u * u_1 u - beta * u_2 u).

(** The program state: the array [y] of shape (3, N) as its three rows, the
    array [t], and a ghost log of the column indices of [y] assigned so far
    (most recent first). *)
Record state := State {
  row0 : list float;
  row1 : list float;
  row2 : list float;
  t : list float;
  written : list Z
}.

(** [np.zeros(n)]; a negative length raises. *)
Definition np_zeros (n : Z) : option (list float) :=
  if (n <? 0)%Z then None else Some (replicate (Z.to_nat n) 0).

(** [a[i]] for the indices the loop uses, which are never negative; [None]
    when the index is negative, or out of range ([IndexError]). *)
Definition get (a : list float) (i : Z) : option float :=
  if (i <? 0)%Z then None else a !! Z.to_nat i.

(** [a[i] = v], likewise. *)
Definition set (a : list float) (i : Z) (v : float) : option (list float) :=
  if (i <? 0)%Z then None
  else if (Z.to_nat i <? length a)%nat then Some (<[Z.to_nat i := v]> a)
  else None.

(** [y[:, i]]. *)
Definition get_column (s : state) (i : Z) : option vec3 :=
  do a <- get (row0 s) i;
  do b <- get (row1 s) i;
  do c <- get (row2 s) i;
  Some (array3 a b c).

(** [y[:, i] = v], recorded in the log. *)
Definition set_column (s : state) (i : Z) (v : vec3) : option state :=
  do r0 <- set (row0 s) i (u_0 v);
  do r1 <- set (row1 s) i (u_1 v);
  do r2 <- set (row2 s) i (u_2 v);
  Some (State r0 r1 r2 (t s) (i :: written s)).

(** The body of the integration loop at index [i]. *)
Definition loop_body (i : Z) (s : state) : option state :=
  do t_prev <- get (t s) (i - 1)%Z;
  do y_prev <- get_column s (i - 1)%Z;
  let k1 := vmap (fun x => h * x) (f t_prev y_prev) in
  let k2 := vmap (fun x => h * x)
              (f (t_prev + h / 2) (vadd y_prev (vmap (fun x => x / 2) k1))) in
  let k3 := vmap (fun x => h * x)
              (f (t_prev + h / 2) (vadd y_prev (vmap (fun x => x / 2) k2))) in
  let k4 := vmap (fun x => h * x) (f (t_prev + h) (vadd y_prev k3)) in
  do s <- set_column s i
            (vadd y_prev
               (vmap (fun x => 1 / 6 * x)
                  (vadd (vadd (vadd k1 (vmap (fun x => 2 * x) k2))
                           (vmap (fun x => 2 * x) k3)) k4)));
  do t' <- set (t s) i (t_prev + h);
  Some (State (row0 s) (row1 s) (row2 s) t' (written s)).

(** The script from the allocation of [y] to the end of the loop, for a
    step count [n]. *)
Definition integrate (n : Z) : option state :=
  do r <- np_zeros n;
  let s := State r r r r [] in
  do s <- set_column s 0 (array3 1 1 1);
  for_each (py_range 1 n) loop_body s.



(** The invariant of the integration loop before index [k]: the arrays keep
    their size [n], and the columns assigned so far are 0, 1, ..., k-1, once
    each and in this order. *)
Definition integrated_upto (n : nat) (k : Z) (s : state) : Prop :=
  length (row0 s) = n /\ length (row1 s) = n /\ length (row2 s) = n /\
  length (t s) = n /\ rev (written s) = py_range 0 k.

(** The column the loop body assigns after a column [y_prev] at time
    [t_prev]: one Runge-Kutta step. *)
Definition next_column (t_prev : float) (y_prev : vec3) : vec3 :=
  let k1 := vmap (fun x => h * x) (f t_prev y_prev) in
  let k2 := vmap (fun x => h * x)
              (f (t_prev + h / 2) (vadd y_prev (vmap (fun x => x / 2) k1))) in
  let k3 := vmap (fun x => h * x)
              (f (t_prev + h / 2) (vadd y_prev (vmap (fun x => x / 2) k2))) in
  let k4 := vmap (fun x => h * x) (f (t_prev + h) (vadd y_prev k3)) in
  vadd y_prev
    (vmap (fun x => 1 / 6 * x)
       (vadd (vadd (vadd k1 (vmap (fun x => 2 * x) k2))
                (vmap (fun x => 2 * x) k3)) k4)).

(** The arrays hold a trajectory up to (excluding) index [k]: column 0 is
    the initial condition at time 0, and every later column and time below
    [k] is the step of the column and time before it. *)
Definition trajectory_upto (k : Z) (s : state) : Prop :=
  get_column s 0 = Some (array3 1 1 1) /\
  get (t s) 0 = Some 0 /\
  forall i, (1 <= i < k)%Z ->
    exists t_prev y_prev,
      get (t s) (i - 1)%Z = Some t_prev /\
      get_column s (i - 1)%Z = Some y_prev /\
      get_column s i = Some (next_column t_prev y_prev) /\
      get (t s) i = Some (t_prev + h).

End Lorenz.

(** ** Notions used to reason about binary64 rounding *)

Module FloatFacts.

(** Number of binary digits of a positive mantissa. *)
Definition digits (m : positive) : Z := Z.pos (digits2_pos m).

(** The sign of a spec float, when it has one. *)
Definition has_sign (s : bool) (x : spec_float) : Prop :=
  match x with
  | S754_zero s' | S754_infinity s' | S754_finite s' _ _ => s' = s
  | S754_nan => False
  end.

(** [x] has sign [s] and magnitude at least 2^(k-1): finite with
    [digits + exponent >= k], or infinite. *)
Definition at_least (s : bool) (k : Z) (x : spec_float) : Prop :=
  match x with
  | S754_finite s' m e => s' = s /\ k <= digits m + e
  | S754_infinity s' => s' = s
  | _ => False
  end.

(** A float that is NaN, or positive with magnitude at least 2^(k-1). *)
Definition nan_or_at_least (k : Z) (x : float) : Prop :=
  Prim2SF x = S754_nan \/ at_least false k (Prim2SF x).

(** A float that is NaN, or has the positive sign (zero included). *)
Definition nan_or_nonneg (x : float) : Prop :=
  Prim2SF x = S754_nan \/ has_sign false (Prim2SF x).

(** The value [m * 2^e] counted in units of 2^-1200: an integer for every
    exponent [e >= -1200], so for every binary64 mantissa and exponent. *)
Definition units (m e : Z) : Z := m * 2 ^ (e + 1200).

(** The mantissa next above a value truncated at location [l]: the mantissa
    itself when nothing was cut off. *)
Definition upper_mantissa (m : Z) (l : location) : Z :=
  match l with loc_Exact => m | loc_Inexact _ => m + 1 end.

End FloatFacts.

(** * Proofs *)

(** ** Facts about binary64 rounding *)

Module FloatProofs.
Import FloatFacts.

Lemma digits_pos m : 1 <= digits m.
Proof. unfold digits. lia. Qed.

Lemma digits_bounds m : 2 ^ (digits m - 1) <= Z.pos m < 2 ^ digits m.
Proof.
  unfold digits. induction m as [m IH | m IH |]; cbn [digits2_pos].
  - rewrite Pos2Z.inj_succ. change (Z.pos m~1) with (2 * Z.pos m + 1).
    replace (Z.succ (Z.pos (digits2_pos m)) - 1) with (Z.succ (Z.pos (digits2_pos m) - 1)) by lia.
    rewrite !Z.pow_succ_r by lia.
    generalize dependent (2 ^ (Z.pos (digits2_pos m) - 1)).
    generalize dependent (2 ^ Z.pos (digits2_pos m)). intros; lia.
  - rewrite Pos2Z.inj_succ. change (Z.pos m~0) with (2 * Z.pos m).
    replace (Z.succ (Z.pos (digits2_pos m)) - 1) with (Z.succ (Z.pos (digits2_pos m) - 1)) by lia.
    rewrite !Z.pow_succ_r by lia.
    generalize dependent (2 ^ (Z.pos (digits2_pos m) - 1)).
    generalize dependent (2 ^ Z.pos (digits2_pos m)). intros; lia.
  - cbn. lia.
Qed.

Lemma digits_ge m k : 0 <= k -> 2 ^ k <= Z.pos m -> k + 1 <= digits m.
Proof.
  intros Hk H. pose proof (digits_bounds m) as [_ Hu]. pose proof (digits_pos m).
  destruct (Z_lt_le_dec k (digits m)) as [|Hle]; [lia|].
  assert (2 ^ digits m <= 2 ^ k) by (apply Z.pow_le_mono_r; lia). lia.
Qed.

Lemma digits_le m k : 0 <= k -> Z.pos m < 2 ^ k -> digits m <= k.
Proof.
  intros Hk H. pose proof (digits_bounds m) as [Hl _]. pose proof (digits_pos m).
  destruct (Z_lt_le_dec k (digits m)) as [Hlt|]; [|lia].
  assert (2 ^ k <= 2 ^ (digits m - 1)) by (apply Z.pow_le_mono_r; lia). lia.
Qed.

Lemma digits_mono m n : (m <= n)%positive -> digits m <= digits n.
Proof.
  intros H. pose proof (digits_bounds m) as [Hl _]. pose proof (digits_bounds n) as [_ Hu].
  pose proof (digits_pos m). pose proof (digits_pos n).
  apply digits_le; [lia|].
  assert (Z.pos m <= Z.pos n) by lia.
  destruct (Z_lt_le_dec (digits n) (digits m)) as [Hlt|]; [|].
  - assert (2 ^ digits n <= 2 ^ (digits m - 1)) by (apply Z.pow_le_mono_r; lia). lia.
  - assert (2 ^ digits n <= 2 ^ digits n) by lia.
    destruct (Z_lt_le_dec (Z.pos m) (2 ^ digits n)); [lia|]. lia.
Qed.

Lemma digits_unique m k : 2 ^ (k - 1) <= Z.pos m < 2 ^ k -> 1 <= k -> digits m = k.
Proof.
  intros [Hl Hu] Hk.
  pose proof (digits_le m k ltac:(lia) Hu). pose proof (digits_ge m (k - 1) ltac:(lia) Hl). lia.
Qed.

(** [SpecFloat.iter_pos] is iteration. *)
Lemma iter_pos_nat {A} (f : A -> A) n x :
  SpecFloat.iter_pos f n x = Nat.iter (Pos.to_nat n) f x.
Proof.
  revert x. induction n as [n IH | n IH |]; intros x; cbn [SpecFloat.iter_pos].
  - rewrite !IH. rewrite Pos2Nat.inj_xI.
    replace (S (2 * Pos.to_nat n))%nat with (Pos.to_nat n + (Pos.to_nat n + 1))%nat by lia.
    rewrite !Nat.iter_add. reflexivity.
  - rewrite !IH. rewrite Pos2Nat.inj_xO.
    replace (2 * Pos.to_nat n)%nat with (Pos.to_nat n + Pos.to_nat n)%nat by lia.
    rewrite Nat.iter_add. reflexivity.
  - reflexivity.
Qed.

Lemma shr_1_m r : 0 <= shr_m r -> shr_m (shr_1 r) = shr_m r / 2.
Proof.
  destruct r as [m r s]. cbn [shr_m]. intros H.
  destruct m as [|p|p]; [reflexivity | | lia].
  destruct p as [p|p|]; cbn [shr_1 shr_m].
  - change (Z.pos p~1) with (2 * Z.pos p + 1). apply Z.div_unique with (r := 1); lia.
  - change (Z.pos p~0) with (2 * Z.pos p). apply Z.div_unique with (r := 0); lia.
  - reflexivity.
Qed.

Lemma shr_iter_m k r :
  0 <= shr_m r -> shr_m (Nat.iter k shr_1 r) = shr_m r / 2 ^ Z.of_nat k.
Proof.
  intros H. induction k as [|k IH].
  - cbn. now rewrite Z.div_1_r.
  - change (Nat.iter (S k) shr_1 r) with (shr_1 (Nat.iter k shr_1 r)). rewrite shr_1_m.
    + rewrite IH, Nat2Z.inj_succ, Z.pow_succ_r by lia.
      rewrite Z.div_div by lia. f_equal. lia.
    + rewrite IH. apply Z.div_pos; lia.
Qed.


Lemma fexp_eq x : fexp prec emax x = Z.max (x - 53) (-1074).
Proof. reflexivity. Qed.

Lemma shr_record_of_loc_m m l : shr_m (shr_record_of_loc m l) = m.
Proof. destruct l as [|[| |]]; reflexivity. Qed.

Lemma shr_m_nonneg r e n : 0 <= shr_m r -> 0 <= shr_m (fst (shr r e n)).
Proof.
  intros H. destruct n as [|p|p]; cbn [shr fst]; try exact H.
  rewrite iter_pos_nat, shr_iter_m by exact H. apply Z.div_pos; lia.
Qed.

Lemma shr_fexp_nonneg m e l : 0 <= m -> 0 <= shr_m (fst (shr_fexp prec emax m e l)).
Proof.
  intros H. unfold shr_fexp. apply shr_m_nonneg. now rewrite shr_record_of_loc_m.
Qed.

(** Shifting a mantissa whose magnitude lies in the normal range keeps it
    positive and keeps [digits + exponent]. *)
Lemma shr_fexp_pos m e l :
  -1021 <= digits m + e ->
  exists m1 e1, shr_m (fst (shr_fexp prec emax (Z.pos m) e l)) = Z.pos m1 /\
                snd (shr_fexp prec emax (Z.pos m) e l) = e1 /\
                digits m1 + e1 = digits m + e.
Proof.
  intros Hmag. unfold shr_fexp. rewrite fexp_eq. cbn [Zdigits2]. fold (digits m).
  replace (Z.max (digits m + e - 53) (-1074) - e) with (digits m - 53) by lia.
  destruct (digits m - 53) as [|p|p] eqn:Hn; cbn [shr fst snd].
  - exists m, e. rewrite shr_record_of_loc_m. auto.
  - rewrite iter_pos_nat, shr_iter_m by (rewrite shr_record_of_loc_m; lia).
    rewrite shr_record_of_loc_m, positive_nat_Z.
    pose proof (digits_bounds m) as [Hl Hu].
    assert (Hd : digits m = Z.pos p + 53) by lia.
    assert (Hlo : 2 ^ 52 <= Z.pos m / 2 ^ Z.pos p).
    { apply Z.div_le_lower_bound; [lia|].
      rewrite <- Z.pow_add_r by lia. replace (Z.pos p + 52) with (digits m - 1) by lia. exact Hl. }
    assert (Hhi : Z.pos m / 2 ^ Z.pos p < 2 ^ 53).
    { apply Z.div_lt_upper_bound; [lia|].
      rewrite <- Z.pow_add_r by lia. replace (Z.pos p + 53) with (digits m) by lia. exact Hu. }
    destruct (Z.pos m / 2 ^ Z.pos p) as [|q|q] eqn:Hq; [lia | | lia].
    exists q, (e + Z.pos p). split; [reflexivity|]. split; [reflexivity|].
    rewrite (digits_unique q 53) by (try (split; [exact Hlo | exact Hhi]); lia). lia.
  - exists m, e. rewrite shr_record_of_loc_m. auto.
Qed.

Lemma round_nearest_even_pos m l :
  exists m', round_nearest_even (Z.pos m) l = Z.pos m' /\ (m <= m')%positive.
Proof.
  destruct l as [|[| |]]; cbn [round_nearest_even].
  - exists m. split; [reflexivity | lia].
  - destruct (Z.even (Z.pos m)).
    + exists m. split; [reflexivity | lia].
    + exists (m + 1)%positive. split; [reflexivity | lia].
  - exists m. split; [reflexivity | lia].
  - exists (m + 1)%positive. split; [reflexivity | lia].
Qed.

Lemma round_nearest_even_nonneg m l : 0 <= m -> 0 <= round_nearest_even m l.
Proof.
  intros H. destruct l as [|[| |]]; cbn [round_nearest_even]; try lia.
  destruct (Z.even m); lia.
Qed.

Lemma bra_sign s m e l : 0 <= m -> has_sign s (binary_round_aux prec emax s m e l).
Proof.
  intros H. unfold binary_round_aux.
  pose proof (shr_fexp_nonneg m e l H) as H1.
  destruct (shr_fexp prec emax m e l) as [mrs' e'] eqn:E1. cbn [fst] in H1.
  pose proof (shr_fexp_nonneg _ e' loc_Exact
                (round_nearest_even_nonneg _ (loc_of_shr_record mrs') H1)) as H2.
  destruct (shr_fexp prec emax (round_nearest_even (shr_m mrs') (loc_of_shr_record mrs')) e' loc_Exact)
    as [mrs'' e''] eqn:E2. cbn [fst] in H2.
  destruct (shr_m mrs'') as [|q|q]; [reflexivity | | lia].
  destruct (e'' <=? emax - prec); reflexivity.
Qed.

Lemma bra_at_least s m e l k :
  k <= digits m + e -> -1021 <= k ->
  at_least s k (binary_round_aux prec emax s (Z.pos m) e l).
Proof.
  intros Hk Hmin. unfold binary_round_aux.
  destruct (shr_fexp_pos m e l ltac:(lia)) as (m1 & e1 & Hm1 & He1 & Hd1).
  destruct (shr_fexp prec emax (Z.pos m) e l) as [mrs' e'] eqn:E1. cbn [fst snd] in Hm1, He1.
  subst e'. rewrite Hm1.
  destruct (round_nearest_even_pos m1 (loc_of_shr_record mrs')) as (m2 & Hr & Hle).
  rewrite Hr. pose proof (digits_mono _ _ Hle) as Hmono.
  destruct (shr_fexp_pos m2 e1 loc_Exact ltac:(lia)) as (m3 & e3 & Hm3 & He3 & Hd3).
  destruct (shr_fexp prec emax (Z.pos m2) e1 loc_Exact) as [mrs'' e''] eqn:E2.
  cbn [fst snd] in Hm3, He3. subst e''. rewrite Hm3.
  destruct (e3 <=? emax - prec); cbn [at_least]; [split; [reflexivity | lia] | reflexivity].
Qed.


Lemma digits_mul m n : digits m + digits n - 1 <= digits (m * n).
Proof.
  pose proof (digits_bounds m) as [Hm _]. pose proof (digits_bounds n) as [Hn _].
  pose proof (digits_pos m). pose proof (digits_pos n).
  assert (H2 : 2 ^ (digits m - 1 + (digits n - 1)) <= Z.pos (m * n)).
  { rewrite Z.pow_add_r by lia. rewrite Pos2Z.inj_mul.
    apply Z.mul_le_mono_nonneg; try assumption; apply Z.pow_nonneg; lia. }
  apply digits_ge in H2; lia.
Qed.

Lemma digits_iter_xO m d : digits (Pos.iter xO m d) = digits m + Z.pos d.
Proof.
  induction d as [|d IH] using Pos.peano_ind.
  - cbn [Pos.iter]. unfold digits. cbn [digits2_pos]. lia.
  - rewrite Pos.iter_succ. unfold digits in *. cbn [digits2_pos]. lia.
Qed.

Lemma shl_align_mag m e e' :
  digits (fst (shl_align m e e')) + snd (shl_align m e e') = digits m + e.
Proof.
  unfold shl_align. destruct (e' - e) as [|d|d] eqn:Hd; cbn [fst snd]; try reflexivity.
  rewrite digits_iter_xO. lia.
Qed.

Lemma shl_align_snd m e e' : e' <= e -> snd (shl_align m e e') = e'.
Proof.
  intros H. unfold shl_align. destruct (e' - e) as [|d|d] eqn:Hd; cbn [snd]; lia.
Qed.

Lemma binary_round_at_least s p e k :
  k <= digits p + e -> -1021 <= k -> at_least s k (binary_round prec emax s p e).
Proof.
  intros Hk Hmin. unfold binary_round.
  pose proof (shl_align_mag p e (fexp prec emax (Z.pos (digits2_pos p) + e))) as Hmag.
  destruct (shl_align p e (fexp prec emax (Z.pos (digits2_pos p) + e))) as [mz ez].
  cbn [fst snd] in Hmag. apply bra_at_least; lia.
Qed.

Lemma mul_at_least sx sy a b x y :
  at_least sx a x -> at_least sy b y -> -1021 <= a + b - 1 ->
  at_least (xorb sx sy) (a + b - 1) (SF64mul x y).
Proof.
  intros Hx Hy Hmin.
  destruct x as [| sx' | | sx' mx ex]; try contradiction;
    destruct y as [| sy' | | sy' my ey]; try contradiction;
    cbn [at_least] in Hx, Hy; cbn [SF64mul SFmul].
  - subst. reflexivity.
  - destruct Hy as [-> _]. subst. reflexivity.
  - destruct Hx as [-> _]. subst. reflexivity.
  - destruct Hx as [-> Hx], Hy as [-> Hy].
    apply bra_at_least; [|lia]. pose proof (digits_mul mx my). lia.
Qed.

Lemma mul_has_sign sx sy x y :
  has_sign sx x -> has_sign sy y ->
  has_sign (xorb sx sy) (SF64mul x y) \/ SF64mul x y = S754_nan.
Proof.
  intros Hx Hy.
  destruct x as [sx' | sx' | | sx' mx ex]; try contradiction;
    destruct y as [sy' | sy' | | sy' my ey]; try contradiction;
    cbn [has_sign] in Hx, Hy; subst; cbn [SF64mul SFmul]; auto;
    try (left; reflexivity).
  left. apply bra_sign. lia.
Qed.

Lemma add_at_least k x w :
  at_least false k x -> has_sign false w -> -1021 <= k ->
  at_least false k (SF64add x w).
Proof.
  intros Hx Hw Hmin.
  destruct x as [| sx | | sx mx ex]; try contradiction;
    destruct w as [sw | sw | | sw my ey]; try contradiction;
    cbn [at_least has_sign] in Hx, Hw; subst; cbn [SF64add SFadd]; try reflexivity.
  - destruct Hx as [-> Hx]. cbn [at_least]. auto.
  - destruct Hx as [-> Hx]. cbn [cond_Zopp Z.add binary_normalize].
    apply binary_round_at_least; [|exact Hmin].
    pose proof (shl_align_mag mx ex (Z.min ex ey)) as Hmag.
    rewrite shl_align_snd in Hmag by lia.
    assert (Hle : (fst (shl_align mx ex (Z.min ex ey))
                   <= fst (shl_align mx ex (Z.min ex ey)) + fst (shl_align my ey (Z.min ex ey)))%positive)
      by lia.
    apply digits_mono in Hle. lia.
Qed.

Lemma nan_or_at_least_nonzero k x : nan_or_at_least k x -> (x =? 0)%float = false.
Proof.
  intros H. rewrite FloatAxioms.eqb_spec. change (Prim2SF 0) with (S754_zero false).
  destruct H as [-> | H]; [reflexivity|].
  destruct (Prim2SF x) as [| [|] | | [|] m e]; try contradiction; try reflexivity;
    cbn [at_least] in H; try (destruct H; discriminate); discriminate.
Qed.

Lemma sqr_nonneg x : nan_or_nonneg (sqr x).
Proof.
  unfold nan_or_nonneg, sqr. rewrite FloatAxioms.mul_spec.
  destruct (Prim2SF x) as [s | s | | s m e] eqn:E.
  - right. cbn. now destruct s.
  - right. cbn. now destruct s.
  - left. reflexivity.
  - destruct (mul_has_sign s s (S754_finite s m e) (S754_finite s m e)) as [H | H];
      try reflexivity.
    + right. now rewrite xorb_nilpotent in H.
    + left. exact H.
Qed.

Lemma mul_at_least_nonneg k c w :
  at_least false k (Prim2SF c) -> nan_or_nonneg w -> nan_or_nonneg (c * w)%float.
Proof.
  intros Hc [Hw | Hw]; unfold nan_or_nonneg; rewrite FloatAxioms.mul_spec.
  - left. rewrite Hw. destruct (Prim2SF c); reflexivity.
  - assert (Hs : has_sign false (Prim2SF c)).
    { destruct (Prim2SF c); try contradiction; cbn in *; tauto. }
    destruct (mul_has_sign _ _ _ _ Hs Hw) as [H | H]; auto.
Qed.

Lemma add_at_least_nonneg k c w :
  at_least false k (Prim2SF c) -> nan_or_nonneg w -> -1021 <= k ->
  nan_or_at_least k (c + w)%float.
Proof.
  intros Hc [Hw | Hw] Hmin; unfold nan_or_at_least; rewrite FloatAxioms.add_spec.
  - left. rewrite Hw. destruct (Prim2SF c); reflexivity.
  - right. now apply add_at_least.
Qed.

Lemma nan_or_at_least_mul a b x y :
  nan_or_at_least a x -> nan_or_at_least b y -> -1021 <= a + b - 1 ->
  nan_or_at_least (a + b - 1) (x * y)%float.
Proof.
  intros [Hx | Hx] [Hy | Hy] Hmin; unfold nan_or_at_least; rewrite FloatAxioms.mul_spec.
  - left. rewrite Hx. reflexivity.
  - left. rewrite Hx. reflexivity.
  - left. rewrite Hy. destruct (Prim2SF x); reflexivity.
  - right. apply (mul_at_least false false); assumption.
Qed.

Lemma div_eucl_eq a b : Z.div_eucl a b = (a / b, a mod b).
Proof. unfold Z.div, Z.modulo. now destruct (Z.div_eucl a b). Qed.

Lemma digits_mul_pow52 m : digits (4503599627370496 * m) = digits m + 52.
Proof. change (4503599627370496 * m)%positive with (Pos.iter xO m 52). apply digits_iter_xO. Qed.

Lemma shr_52 m :
  SpecFloat.iter_pos shr_1 52 (Build_shr_record (Z.pos (4503599627370496 * m)) false false)
  = Build_shr_record (Z.pos m) false false.
Proof. reflexivity. Qed.

Lemma canonical_cases m e :
  valid_binary (S754_finite false m e) = true ->
  (digits m = 53 /\ -1074 <= e) \/ (e = -1074 /\ digits m <= 53).
Proof.
  cbn [SpecFloat.valid_binary]. unfold bounded, canonical_mantissa. rewrite fexp_eq.
  fold (digits m). intros H. apply andb_prop in H as [H _]. apply Z.eqb_eq in H. lia.
Qed.

(** The first shift of the rounding of [0.5 * x]. *)
Lemma half_mul_shr m e :
  valid_binary (S754_finite false m e) = true ->
  shr_fexp prec emax (Z.pos (4503599627370496 * m)) (-53 + e) loc_Exact
  = if -1073 <=? e then (Build_shr_record (Z.pos m) false false, e - 1)
    else (shr_1 (Build_shr_record (Z.pos m) false false), -1074).
Proof.
  intros Hv. apply canonical_cases in Hv.
  unfold shr_fexp. rewrite fexp_eq. cbn [Zdigits2]. fold (digits (4503599627370496 * m)).
  rewrite digits_mul_pow52. cbn [shr_record_of_loc].
  destruct (-1073 <=? e) eqn:He; [apply Z.leb_le in He | apply Z.leb_gt in He].
  - replace (Z.max (digits m + 52 + (-53 + e) - 53) (-1074) - (-53 + e)) with 52 by lia.
    cbn [shr]. rewrite shr_52. f_equal. lia.
  - replace (Z.max (digits m + 52 + (-53 + e) - 53) (-1074) - (-53 + e)) with 53 by lia.
    cbn [shr]. change (SpecFloat.iter_pos shr_1 53 ?r) with (shr_1 (SpecFloat.iter_pos shr_1 52 r)).
    rewrite shr_52. f_equal. lia.
Qed.

(** The quotient, exponent and location that [x / 2] rounds. *)
Lemma half_div_core m e :
  valid_binary (S754_finite false m e) = true ->
  SFdiv_core_binary prec emax (Z.pos m) e 4503599627370496 (-51)
  = if -1072 <=? e then (2 * Z.pos m, e - 2, loc_Exact)
    else if -1073 <=? e then (Z.pos m, -1074, loc_Exact)
    else (Z.pos m / 2, -1074,
          if Z.pos m mod 2 =? 0 then loc_Exact else loc_Inexact Eq).
Proof.
  intros Hv. apply canonical_cases in Hv.
  unfold SFdiv_core_binary. rewrite fexp_eq. cbn [Zdigits2]. fold (digits m).
  change (Z.pos (digits2_pos 4503599627370496)) with 53.
  cbv zeta. rewrite div_eucl_eq.
  destruct (-1072 <=? e) eqn:H1; [apply Z.leb_le in H1 | apply Z.leb_gt in H1].
  - replace (Z.min (Z.max (digits m + e - (53 + -51) - 53) (-1074)) (e - -51)) with (e - 2) by lia.
    replace (e - -51 - (e - 2)) with 53 by lia.
    rewrite Z.shiftl_mul_pow2 by lia.
    replace (Z.pos m * 2 ^ 53) with (2 * Z.pos m * 4503599627370496) by lia.
    rewrite Z.div_mul, Z.mod_mul by lia. reflexivity.
  - destruct (-1073 <=? e) eqn:H2; [apply Z.leb_le in H2 | apply Z.leb_gt in H2].
    + replace (Z.min (Z.max (digits m + e - (53 + -51) - 53) (-1074)) (e - -51)) with (-1074) by lia.
      replace (e - -51 - -1074) with 52 by lia.
      rewrite Z.shiftl_mul_pow2 by lia.
      change (2 ^ 52) with 4503599627370496.
      rewrite Z.div_mul, Z.mod_mul by lia. reflexivity.
    + replace (Z.min (Z.max (digits m + e - (53 + -51) - 53) (-1074)) (e - -51)) with (-1074) by lia.
      replace (e - -51 - -1074) with 51 by lia.
      rewrite Z.shiftl_mul_pow2 by lia.
      change 4503599627370496 with (2 * 2 ^ 51).
      rewrite (Z.mul_comm 2 (2 ^ 51)), (Z.mul_comm (Z.pos m)).
      rewrite Z.div_mul_cancel_l by lia.
      rewrite Zmult_mod_distr_l.
      f_equal.
      unfold new_location. change (Z.even (2 ^ 51 * 2)) with true. unfold new_location_even.
      pose proof (Z.mod_pos_bound (Z.pos m) 2 ltac:(lia)) as Hb.
      destruct (Z.pos m mod 2 =? 0) eqn:Hm; [apply Z.eqb_eq in Hm | apply Z.eqb_neq in Hm].
      * rewrite Hm. reflexivity.
      * replace (Z.pos m mod 2) with 1 by lia. reflexivity.
Qed.

Lemma half_div_shr m e :
  valid_binary (S754_finite false m e) = true ->
  (let '(mz, ez, lz) := SFdiv_core_binary prec emax (Z.pos m) e 4503599627370496 (-51) in
   shr_fexp prec emax mz ez lz)
  = shr_fexp prec emax (Z.pos (4503599627370496 * m)) (-53 + e) loc_Exact.
Proof.
  intros Hv. rewrite half_mul_shr, half_div_core by exact Hv.
  apply canonical_cases in Hv.
  destruct (-1072 <=? e) eqn:H1; [apply Z.leb_le in H1 | apply Z.leb_gt in H1].
  - replace (-1073 <=? e) with true by (symmetry; apply Z.leb_le; lia).
    unfold shr_fexp. rewrite fexp_eq. change (2 * Z.pos m) with (Z.pos m~0).
    cbn [Zdigits2 digits2_pos]. rewrite Pos2Z.inj_succ. fold (digits m).
    replace (Z.max (Z.succ (digits m) + (e - 2) - 53) (-1074) - (e - 2)) with 1 by lia.
    cbn. f_equal. lia.
  - destruct (-1073 <=? e) eqn:H2; [apply Z.leb_le in H2 | apply Z.leb_gt in H2].
    + unfold shr_fexp. rewrite fexp_eq. cbn [Zdigits2]. fold (digits m).
      replace (Z.max (digits m + -1074 - 53) (-1074) - -1074) with 0 by lia.
      cbn. f_equal. lia.
    + assert (Hq : forall q l, Zdigits2 q <= 53 ->
                shr_fexp prec emax q (-1074) l = (shr_record_of_loc q l, -1074)).
      { intros q l Hd. unfold shr_fexp. rewrite fexp_eq.
        replace (Z.max (Zdigits2 q + -1074 - 53) (-1074) - -1074) with 0 by lia.
        reflexivity. }
      destruct m as [p | p |].
      * replace (Z.pos p~1 / 2) with (Z.pos p)
          by (apply Z.div_unique with (r := 1); lia).
        replace (Z.pos p~1 mod 2) with 1
          by (apply Z.mod_unique with (q := Z.pos p); lia).
        rewrite Hq; [reflexivity|].
        cbn [Zdigits2]. unfold digits in Hv. cbn [digits2_pos] in Hv. lia.
      * replace (Z.pos p~0 / 2) with (Z.pos p)
          by (apply Z.div_unique with (r := 0); lia).
        replace (Z.pos p~0 mod 2) with 0
          by (apply Z.mod_unique with (q := Z.pos p); lia).
        rewrite Hq; [reflexivity|].
        cbn [Zdigits2]. unfold digits in Hv. cbn [digits2_pos] in Hv. lia.
      * reflexivity.
Qed.

(** Multiplying by 0.5 and dividing by 2 round the same way. *)
Lemma half_mul_div x : (0.5 * x)%float = (x / 2)%float.
Proof.
  apply Prim2SF_inj. rewrite FloatAxioms.mul_spec, FloatAxioms.div_spec.
  change (Prim2SF 0.5) with (S754_finite false 4503599627370496 (-53)).
  change (Prim2SF 2) with (S754_finite false 4503599627370496 (-51)).
  pose proof (Prim2SF_valid x) as Hv.
  destruct (Prim2SF x) as [s | s | | s m e]; try (destruct s; reflexivity); [reflexivity|].
  cbn [SF64mul SF64div SFmul SFdiv].
  pose proof (half_div_shr m e Hv) as Hshr.
  destruct (SFdiv_core_binary prec emax (Z.pos m) e 4503599627370496 (-51)) as [[mz ez] lz].
  unfold binary_round_aux. rewrite Hshr.
  replace (xorb s false) with (xorb false s) by (destruct s; reflexivity).
  reflexivity.
Qed.

Lemma float_of_int_at_least n :
  1 <= n < 2 ^ 63 -> at_least false 1 (Prim2SF (float_of_int n)).
Proof.
  intros Hn. unfold float_of_int.
  replace (n =? - 2 ^ 63) with false by (symmetry; apply Z.eqb_neq; lia).
  replace (n <? 0) with false by (symmetry; apply Z.ltb_ge; lia).
  rewrite FloatAxioms.of_uint63_spec.
  rewrite Uint63.of_Z_spec. rewrite Z.mod_small by (change Uint63.wB with (2 ^ 63); lia).
  destruct n as [|p|p]; try lia. cbn [binary_normalize].
  apply binary_round_at_least; [|lia]. pose proof (digits_pos p). lia.
Qed.

Lemma at_least_positive k x : at_least false k (Prim2SF x) -> (0 <? x)%float = true.
Proof.
  intros H. rewrite FloatAxioms.ltb_spec. change (Prim2SF 0) with (S754_zero false).
  destruct (Prim2SF x) as [| s | | s m e]; try contradiction; cbn [at_least] in H.
  - subst s. reflexivity.
  - destruct H as [-> _]. reflexivity.
Qed.

Lemma neg_zero_inv x : Prim2SF x = S754_zero true -> x = (-0)%float.
Proof. intros H. apply Prim2SF_inj. rewrite H. reflexivity. Qed.

Lemma add_zero_r x : x <> (-0)%float -> (x + 0)%float = x.
Proof.
  intros Hx. apply Prim2SF_inj. rewrite FloatAxioms.add_spec.
  change (Prim2SF 0) with (S754_zero false).
  destruct (Prim2SF x) as [[|] | s | | s m e] eqn:E; try reflexivity.
  elim Hx. now apply neg_zero_inv.
Qed.

(** The order of binary64 values is transitive across [<=] and [<]. *)
Lemma SFleb_ltb_trans (a b c : spec_float) :
  SFleb a b = true -> SFltb b c = true -> SFltb a c = true.
Proof.
  unfold SFleb, SFltb.
  destruct a as [sa | sa | | sa ma ea], b as [sb | sb | | sb mb eb],
    c as [sc | sc | | sc mc ec];
    cbn [SFcompare]; try discriminate;
    try (destruct sa; discriminate); try (destruct sb; discriminate);
    try (destruct sc; discriminate);
    try (destruct sa, sb; discriminate); try (destruct sb, sc; discriminate);
    try (destruct sa, sc; discriminate);
    try (destruct sa, sb, sc; cbn; congruence).
  destruct sa, sb, sc; try discriminate; try reflexivity;
    destruct (Z.compare_spec ea eb), (Z.compare_spec eb ec), (Z.compare_spec ea ec);
    try discriminate; try reflexivity; try lia; subst;
    rewrite ?Pos.compare_cont_spec; unfold Pos.switch_Eq;
    destruct (Pos.compare_spec ma mb), (Pos.compare_spec mb mc), (Pos.compare_spec ma mc);
    cbn; try discriminate; try reflexivity; try lia.
Qed.

Lemma leb_ltb_trans (a b c : float) :
  (a <=? b)%float = true -> (b <? c)%float = true -> (a <? c)%float = true.
Proof.
  rewrite FloatAxioms.leb_spec, !FloatAxioms.ltb_spec. apply SFleb_ltb_trans.
Qed.

(** Zero divided by a positive float is the positive zero. *)
Lemma zero_div_at_least k x : at_least false k (Prim2SF x) -> (0 / x)%float = 0%float.
Proof.
  intros H. apply Prim2SF_inj. rewrite FloatAxioms.div_spec.
  change (Prim2SF 0) with (S754_zero false).
  destruct (Prim2SF x) as [| s | | s m e]; try contradiction; cbn [at_least] in H.
  - subst s. reflexivity.
  - destruct H as [-> _]. reflexivity.
Qed.

(** A converted 64-bit integer is never the negative zero. *)
Lemma float_of_int_not_neg_zero n :
  - 2 ^ 63 <= n < 2 ^ 63 -> float_of_int n <> (-0)%float.
Proof.
  intros Hn Heq. apply (f_equal Prim2SF) in Heq.
  change (Prim2SF (-0)) with (S754_zero true) in Heq.
  destruct (Z.eq_dec n (- 2 ^ 63)) as [-> | Hmin]; [vm_compute in Heq; discriminate|].
  destruct (Z_lt_le_dec n 0) as [Hneg | Hpos].
  - pose proof (float_of_int_at_least (- n) ltac:(lia)) as Hp.
    unfold float_of_int in Heq, Hp.
    replace (n =? - 2 ^ 63) with false in Heq by (symmetry; apply Z.eqb_neq; lia).
    replace (n <? 0) with true in Heq by (symmetry; apply Z.ltb_lt; lia).
    replace (- n =? - 2 ^ 63) with false in Hp by (symmetry; apply Z.eqb_neq; lia).
    replace (- n <? 0) with false in Hp by (symmetry; apply Z.ltb_ge; lia).
    rewrite FloatAxioms.opp_spec in Heq.
    destruct (Prim2SF (of_uint63 (Uint63.of_Z (- n)))); try contradiction; discriminate.
  - destruct (Z.eq_dec n 0) as [-> | Hnz]; [vm_compute in Heq; discriminate|].
    pose proof (float_of_int_at_least n ltac:(lia)) as Hp.
    rewrite Heq in Hp. contradiction.
Qed.

(** *** Values of roundings

    Bounds on what a rounding returns, stated on exact values counted in
    [units]. *)

Lemma loc_of_shr_record_of_loc m l : loc_of_shr_record (shr_record_of_loc m l) = l.
Proof. destruct l as [|[| |]]; reflexivity. Qed.

Lemma shr_1_exact r :
  0 <= shr_m r -> shr_r r = false -> shr_s r = false -> shr_m r mod 2 = 0 ->
  shr_r (shr_1 r) = false /\ shr_s (shr_1 r) = false.
Proof.
  destruct r as [m r s]. cbn [shr_m shr_r shr_s]. intros Hm -> -> Hev.
  destruct m as [|p|p]; [split; reflexivity | | lia].
  destruct p as [p|p|]; cbn [shr_1 shr_r shr_s orb].
  - exfalso. change (Z.pos p~1) with (2 * Z.pos p + 1) in Hev.
    rewrite Z.add_comm, Z.mul_comm, Z.mod_add in Hev by lia. discriminate.
  - split; reflexivity.
  - discriminate.
Qed.

Lemma shr_iter_exact k r :
  0 <= shr_m r -> shr_r r = false -> shr_s r = false -> shr_m r mod 2 ^ Z.of_nat k = 0 ->
  shr_r (Nat.iter k shr_1 r) = false /\ shr_s (Nat.iter k shr_1 r) = false.
Proof.
  intros Hm Hr Hs. induction k as [|k IH]; intros Hmod.
  - cbn. auto.
  - change (Nat.iter (S k) shr_1 r) with (shr_1 (Nat.iter k shr_1 r)).
    rewrite Nat2Z.inj_succ, Z.pow_succ_r in Hmod by lia.
    assert (H2k : 0 < 2 ^ Z.of_nat k) by (apply Z.pow_pos_nonneg; lia).
    apply Z.mod_divide in Hmod; [|lia]. destruct Hmod as [c Hc].
    assert (Hk : shr_m r mod 2 ^ Z.of_nat k = 0).
    { rewrite Hc. replace (c * (2 * 2 ^ Z.of_nat k)) with (c * 2 * 2 ^ Z.of_nat k) by lia.
      apply Z.mod_mul. lia. }
    destruct (IH Hk) as [Hr' Hs'].
    apply shr_1_exact; try assumption.
    + rewrite shr_iter_m by exact Hm. apply Z.div_pos; lia.
    + rewrite shr_iter_m by exact Hm. rewrite Hc.
      replace (c * (2 * 2 ^ Z.of_nat k)) with (c * 2 * 2 ^ Z.of_nat k) by lia.
      rewrite Z.div_mul by lia. apply Z.mod_mul. lia.
Qed.

Lemma round_nearest_even_cases m l :
  round_nearest_even m l = m \/ round_nearest_even m l = m + 1.
Proof.
  destruct l as [|[| |]]; cbn [round_nearest_even]; auto.
  destruct (Z.even m); auto.
Qed.

(** The first shift of a rounding: the mantissa loses its [digits - 53] low
    bits, and nothing is lost exactly when these bits are zero. *)
Lemma shr_fexp_first m e l :
  53 <= digits m -> -1074 <= e ->
  exists mrs,
    shr_fexp prec emax (Z.pos m) e l = (mrs, e + (digits m - 53)) /\
    shr_m mrs = Z.pos m / 2 ^ (digits m - 53) /\
    (l = loc_Exact -> Z.pos m mod 2 ^ (digits m - 53) = 0 ->
     loc_of_shr_record mrs = loc_Exact).
Proof.
  intros Hd He. unfold shr_fexp. rewrite fexp_eq. cbn [Zdigits2]. fold (digits m).
  replace (Z.max (digits m + e - 53) (-1074) - e) with (digits m - 53) by lia.
  destruct (digits m - 53) as [|p|p] eqn:Hn; cbn [shr]; [| |lia].
  - eexists. split; [rewrite Z.add_0_r; reflexivity|].
    rewrite shr_record_of_loc_m, Z.div_1_r. split; [reflexivity|].
    intros -> _. reflexivity.
  - eexists. split; [reflexivity|].
    rewrite iter_pos_nat, shr_iter_m by (rewrite shr_record_of_loc_m; lia).
    rewrite shr_record_of_loc_m, positive_nat_Z. split; [reflexivity|].
    intros -> Hmod.
    pose proof (shr_iter_exact (Pos.to_nat p) (Build_shr_record (Z.pos m) false false)
                  ltac:(cbn; lia) eq_refl eq_refl) as Hflags.
    rewrite positive_nat_Z in Hflags. destruct (Hflags Hmod) as [Hr Hs].
    cbn [shr_record_of_loc].
    destruct (Nat.iter (Pos.to_nat p) shr_1 _) as [m' r' s'].
    cbn [shr_r shr_s] in Hr, Hs. subst. reflexivity.
Qed.

(** The second shift of a rounding renormalises a mantissa that the rounding
    carried to [2^53]. *)
Lemma shr_fexp_second m2 e1 :
  2 ^ 52 <= m2 <= 2 ^ 53 -> -1074 <= e1 ->
  exists m' e',
    shr_fexp prec emax m2 e1 loc_Exact = (Build_shr_record (Z.pos m') false false, e') /\
    e1 <= e' /\ Z.pos m' * 2 ^ (e' - e1) = m2 /\ 2 ^ 52 <= Z.pos m' < 2 ^ 53.
Proof.
  intros Hm He. destruct m2 as [|p|p]; try lia.
  destruct (Z.eq_dec (Z.pos p) (2 ^ 53)) as [Heq | Hne].
  - assert (Hp : p = 9007199254740992%positive) by (apply Pos2Z.inj; exact Heq).
    clear Heq Hm. subst p. exists (4503599627370496)%positive, (e1 + 1).
    unfold shr_fexp. rewrite fexp_eq. cbn [Zdigits2].
    change (Z.pos (digits2_pos 9007199254740992)) with 54.
    replace (Z.max (54 + e1 - 53) (-1074) - e1) with 1 by lia.
    cbn [shr shr_record_of_loc SpecFloat.iter_pos shr_1 orb].
    split; [reflexivity|]. split; [lia|]. split; [|lia].
    replace (e1 + 1 - e1) with 1 by lia. reflexivity.
  - exists p, e1. unfold shr_fexp. rewrite fexp_eq. cbn [Zdigits2]. fold (digits p).
    rewrite (digits_unique p 53) by lia.
    replace (Z.max (53 + e1 - 53) (-1074) - e1) with 0 by lia.
    cbn [shr shr_record_of_loc]. split; [reflexivity|]. split; [lia|].
    rewrite Z.sub_diag. split; lia.
Qed.

(** What a rounding returns for a mantissa of at least 53 digits: the
    mantissa truncated to 53 digits or its successor, and the truncated
    mantissa itself when the input is exact and no bit is lost. *)
Lemma bra_round s m e l :
  53 <= digits m -> -1074 <= e ->
  exists m2 m' e',
    (m2 = Z.pos m / 2 ^ (digits m - 53) \/ m2 = Z.pos m / 2 ^ (digits m - 53) + 1) /\
    (l = loc_Exact -> Z.pos m mod 2 ^ (digits m - 53) = 0 ->
     m2 = Z.pos m / 2 ^ (digits m - 53)) /\
    e + (digits m - 53) <= e' /\
    Z.pos m' * 2 ^ (e' - (e + (digits m - 53))) = m2 /\
    2 ^ 52 <= Z.pos m' < 2 ^ 53 /\
    binary_round_aux prec emax s (Z.pos m) e l
    = if e' <=? 971 then S754_finite s m' e' else S754_infinity s.
Proof.
  intros Hd He. unfold binary_round_aux.
  destruct (shr_fexp_first m e l Hd He) as (mrs & -> & Hm1 & Hex).
  set (n := digits m - 53) in *.
  pose proof (digits_bounds m) as [Hl Hu].
  assert (Hn : 0 <= n) by (unfold n; lia).
  assert (Hlo : 2 ^ 52 <= Z.pos m / 2 ^ n).
  { apply Z.div_le_lower_bound; [apply Z.pow_pos_nonneg; lia|].
    rewrite <- Z.pow_add_r by lia. replace (n + 52) with (digits m - 1) by (unfold n; lia).
    exact Hl. }
  assert (Hhi : Z.pos m / 2 ^ n < 2 ^ 53).
  { apply Z.div_lt_upper_bound; [apply Z.pow_pos_nonneg; lia|].
    rewrite <- Z.pow_add_r by lia. replace (n + 53) with (digits m) by (unfold n; lia).
    exact Hu. }
  set (m2 := round_nearest_even (shr_m mrs) (loc_of_shr_record mrs)).
  assert (Hm2 : m2 = Z.pos m / 2 ^ n \/ m2 = Z.pos m / 2 ^ n + 1).
  { unfold m2. rewrite <- Hm1. apply round_nearest_even_cases. }
  destruct (shr_fexp_second m2 (e + n) ltac:(lia) ltac:(lia)) as (m' & e' & -> & He' & Hv & Hr).
  exists m2, m', e'. cbn [shr_m]. change (emax - prec) with 971.
  repeat split; try assumption; try lia.
  intros Hl' Hmod. unfold m2. rewrite (Hex Hl' Hmod). cbn [round_nearest_even]. exact Hm1.
Qed.

Lemma pow2_pos k : 0 <= k -> 0 < 2 ^ k.
Proof. intros. apply Z.pow_pos_nonneg; lia. Qed.

Lemma units_shift m e d : 0 <= d -> -1200 <= e -> units m (e + d) = m * 2 ^ d * 2 ^ (e + 1200).
Proof.
  intros Hd He. unfold units. replace (e + d + 1200) with (d + (e + 1200)) by lia.
  rewrite (Z.pow_add_r 2 d (e + 1200)) by lia. lia.
Qed.

Lemma units_le_cancel a b e : -1200 <= e -> units a e <= units b e -> a <= b.
Proof.
  unfold units. intros He H. apply Z.mul_le_mono_pos_r in H; [exact H|].
  apply pow2_pos. lia.
Qed.

Lemma units_lt_pow M j : 0 < M < 2 ^ 53 -> -1200 <= j -> units M j < 2 ^ (j + 1253).
Proof.
  intros HM Hj. unfold units. replace (j + 1253) with (53 + (j + 1200)) by lia.
  rewrite (Z.pow_add_r 2 53 (j + 1200)) by lia. apply Z.mul_lt_mono_pos_r; [apply pow2_pos|]; lia.
Qed.

Lemma units_ge_pow m e : 2 ^ 52 <= m -> -1200 <= e -> 2 ^ (e + 1252) <= units m e.
Proof.
  intros Hm He. unfold units. replace (e + 1252) with (52 + (e + 1200)) by lia.
  rewrite (Z.pow_add_r 2 52 (e + 1200)) by lia. apply Z.mul_le_mono_nonneg_r; [|lia].
  apply Z.lt_le_incl, pow2_pos. lia.
Qed.

Lemma pow2_lt_inv a b : 0 <= b -> 2 ^ a < 2 ^ b -> a < b.
Proof.
  intros Hb H. destruct (Z_lt_le_dec a b) as [|Hle]; [assumption|].
  assert (2 ^ b <= 2 ^ a) by (apply Z.pow_le_mono_r; lia). lia.
Qed.

(** A rounding does not step over a value [M * 2^j] with a 53-bit [M] that
    bounds its input from above. *)
Lemma bra_le s m e l M j :
  53 <= digits m -> -1074 <= e -> 0 < M < 2 ^ 53 -> -1200 <= j <= 971 ->
  units (upper_mantissa (Z.pos m) l) e <= units M j ->
  exists m' e', binary_round_aux prec emax s (Z.pos m) e l = S754_finite s m' e' /\
                units (Z.pos m') e' <= units M j /\ e <= e'.
Proof.
  intros Hd He HM Hj Hle.
  destruct (bra_round s m e l Hd He) as (m2 & m' & e' & Hm2 & Hex & He' & Hv & Hr & Hbra).
  set (n := digits m - 53) in *. set (e1 := e + n) in *.
  assert (Hn : 0 <= n) by (unfold n; lia).
  pose proof (digits_bounds m) as [Hl Hu].
  set (mu := upper_mantissa (Z.pos m) l) in *.
  assert (Hmu : Z.pos m <= mu) by (unfold mu; destruct l; cbn; lia).
  assert (H2n : 0 < 2 ^ n) by (apply pow2_pos; lia).
  set (q := Z.pos m / 2 ^ n) in *.
  pose proof (Z.div_mod (Z.pos m) (2 ^ n) ltac:(lia)) as Hdm. fold q in Hdm.
  pose proof (Z.mod_pos_bound (Z.pos m) (2 ^ n) H2n) as Hrb.
  assert (Hq : 2 ^ 52 <= q).
  { apply Z.div_le_lower_bound; [exact H2n|].
    rewrite <- Z.pow_add_r by lia. replace (n + 52) with (digits m - 1) by (unfold n; lia).
    exact Hl. }
  (* the bound lies on the grid of the rounding *)
  assert (Hje : e1 <= j).
  { assert (H1 : 2 ^ (e1 + 1252) <= units mu e).
    { unfold e1. replace (e + n + 1252) with (n + (e + 1252)) by lia.
      rewrite Z.pow_add_r by lia.
      pose proof (units_ge_pow (2 ^ 52) e ltac:(lia) ltac:(lia)) as H0.
      unfold units in *.
      assert (2 ^ n * 2 ^ 52 <= mu).
      { rewrite <- Z.pow_add_r by lia. replace (n + 52) with (digits m - 1) by (unfold n; lia). lia. }
      replace (e + 1252) with (52 + (e + 1200)) by lia. rewrite Z.pow_add_r by lia.
      rewrite Z.mul_assoc. apply Z.mul_le_mono_nonneg_r; [|lia].
      apply Z.lt_le_incl, pow2_pos. lia. }
    pose proof (units_lt_pow M j HM ltac:(lia)) as H2.
    assert (H3 : 2 ^ (e1 + 1252) < 2 ^ (j + 1253)) by lia.
    apply pow2_lt_inv in H3; lia. }
  set (T := M * 2 ^ (j - e1)).
  assert (HT : units M j = T * 2 ^ n * 2 ^ (e + 1200)).
  { unfold T, units. replace (j + 1200) with ((j - e1) + (n + (e + 1200))) by (unfold e1; lia).
    rewrite !Z.pow_add_r by (unfold e1 in *; lia). lia. }
  assert (HmuT : mu <= T * 2 ^ n).
  { rewrite HT in Hle. unfold units in Hle.
    apply Z.mul_le_mono_pos_r in Hle; [exact Hle | apply pow2_pos; lia]. }
  assert (Hm2T : m2 <= T).
  { destruct (Z.eq_dec (Z.pos m mod 2 ^ n) 0) as [Hz | Hnz].
    - destruct l as [|c].
      + rewrite (Hex eq_refl Hz). unfold mu in HmuT. cbn [upper_mantissa] in HmuT.
        apply Z.mul_le_mono_pos_r with (p := 2 ^ n); [exact H2n|]. lia.
      + assert (q < T).
        { apply Z.mul_lt_mono_pos_r with (p := 2 ^ n); [exact H2n|].
          unfold mu in HmuT. cbn [upper_mantissa] in HmuT. lia. }
        lia.
    - assert (q < T).
      { apply Z.mul_lt_mono_pos_r with (p := 2 ^ n); [exact H2n|]. lia. }
      lia. }
  assert (Hpow : 0 < 2 ^ (e' - e1)) by (apply pow2_pos; lia).
  assert (He'j : e' <= j).
  { assert (H1 : 2 ^ 52 * 2 ^ (e' - e1) <= T).
    { rewrite <- Hv in Hm2T. etransitivity; [|exact Hm2T].
      apply Z.mul_le_mono_nonneg_r; lia. }
    assert (H2 : T < 2 ^ 53 * 2 ^ (j - e1)).
    { unfold T. apply Z.mul_lt_mono_pos_r; [apply pow2_pos|]; lia. }
    rewrite <- Z.pow_add_r in H1, H2 by lia.
    assert (H3 : 2 ^ (52 + (e' - e1)) < 2 ^ (53 + (j - e1))) by lia.
    apply pow2_lt_inv in H3; lia. }
  exists m', e'. replace (e' <=? 971) with true in Hbra by (symmetry; apply Z.leb_le; lia).
  split; [exact Hbra|]. split; [|unfold e1 in *; lia].
  assert (Hu' : units (Z.pos m') e' = m2 * 2 ^ (e1 + 1200)).
  { unfold units. replace (e' + 1200) with ((e' - e1) + (e1 + 1200)) by lia.
    rewrite Z.pow_add_r by (unfold e1 in *; lia). rewrite <- Hv. lia. }
  assert (HT' : units M j = T * 2 ^ (e1 + 1200)).
  { unfold T, units. replace (j + 1200) with ((j - e1) + (e1 + 1200)) by lia.
    rewrite Z.pow_add_r by (unfold e1 in *; lia). lia. }
  rewrite Hu', HT'. apply Z.mul_le_mono_nonneg_r; [|exact Hm2T].
  apply Z.lt_le_incl, pow2_pos. unfold e1. lia.
Qed.

(** A rounding does not step below a value [M * 2^j] with a 53-bit [M] that
    bounds its input from below. *)
Lemma bra_ge s m e l M j :
  53 <= digits m -> -1074 <= e -> 0 < M < 2 ^ 53 -> -1200 <= j ->
  units M j <= units (Z.pos m) e ->
  binary_round_aux prec emax s (Z.pos m) e l = S754_infinity s \/
  exists m' e', binary_round_aux prec emax s (Z.pos m) e l = S754_finite s m' e' /\
                units M j <= units (Z.pos m') e'.
Proof.
  intros Hd He HM Hj Hle.
  destruct (bra_round s m e l Hd He) as (m2 & m' & e' & Hm2 & _ & He' & Hv & Hr & Hbra).
  set (n := digits m - 53) in *. set (e1 := e + n) in *.
  assert (Hn : 0 <= n) by (unfold n; lia).
  pose proof (digits_bounds m) as [Hl Hu].
  assert (H2n : 0 < 2 ^ n) by (apply pow2_pos; lia).
  set (q := Z.pos m / 2 ^ n) in *.
  assert (Hq : 2 ^ 52 <= q).
  { apply Z.div_le_lower_bound; [exact H2n|].
    rewrite <- Z.pow_add_r by lia. replace (n + 52) with (digits m - 1) by (unfold n; lia).
    exact Hl. }
  rewrite Hbra. destruct (e' <=? 971); [right | left; reflexivity].
  exists m', e'. split; [reflexivity|].
  assert (Hu' : units (Z.pos m') e' = m2 * 2 ^ (e1 + 1200)).
  { unfold units. replace (e' + 1200) with ((e' - e1) + (e1 + 1200)) by lia.
    rewrite Z.pow_add_r by (unfold e1 in *; lia). rewrite <- Hv. lia. }
  rewrite Hu'.
  assert (HP : 0 < 2 ^ (e1 + 1200)) by (apply pow2_pos; unfold e1; lia).
  assert (Hqm2 : q * 2 ^ (e1 + 1200) <= m2 * 2 ^ (e1 + 1200))
    by (apply Z.mul_le_mono_nonneg_r; lia).
  etransitivity; [|exact Hqm2].
  destruct (Z_lt_le_dec j e1) as [Hlt | Hge].
  - pose proof (units_lt_pow M j HM ltac:(lia)) as H2.
    assert (H3 : 2 ^ (j + 1253) <= 2 ^ (e1 + 1252)) by (apply Z.pow_le_mono_r; lia).
    assert (H4 : 2 ^ (e1 + 1252) <= q * 2 ^ (e1 + 1200)).
    { replace (e1 + 1252) with (52 + (e1 + 1200)) by lia. rewrite Z.pow_add_r by (unfold e1; lia).
      apply Z.mul_le_mono_nonneg_r; lia. }
    lia.
  - set (T := M * 2 ^ (j - e1)).
    assert (HT' : units M j = T * 2 ^ (e1 + 1200)).
    { unfold T, units. replace (j + 1200) with ((j - e1) + (e1 + 1200)) by lia.
      rewrite Z.pow_add_r by (unfold e1 in *; lia). lia. }
    assert (HT : units M j = T * 2 ^ n * 2 ^ (e + 1200)).
    { unfold T, units. replace (j + 1200) with ((j - e1) + (n + (e + 1200))) by (unfold e1; lia).
      rewrite !Z.pow_add_r by (unfold e1 in *; lia). lia. }
    rewrite HT'. apply Z.mul_le_mono_nonneg_r; [lia|].
    apply Z.div_le_lower_bound; [exact H2n|].
    rewrite HT in Hle. unfold units in Hle.
    apply Z.mul_le_mono_pos_r in Hle; [lia | apply pow2_pos; lia].
Qed.

Lemma iter_xO_value m d : Z.pos (Pos.iter xO m d) = Z.pos m * 2 ^ Z.pos d.
Proof.
  induction d as [|d IH] using Pos.peano_ind.
  - cbn [Pos.iter]. lia.
  - rewrite Pos.iter_succ, Pos2Z.inj_succ, Z.pow_succ_r by lia.
    change (Z.pos (Pos.iter xO m d)~0) with (2 * Z.pos (Pos.iter xO m d)). rewrite IH. lia.
Qed.

Lemma shl_align_units m e e' :
  -1200 <= e' -> -1200 <= e ->
  units (Z.pos (fst (shl_align m e e'))) (snd (shl_align m e e')) = units (Z.pos m) e.
Proof.
  intros He' He. unfold shl_align. destruct (e' - e) as [|d|d] eqn:Hd; cbn [fst snd]; try reflexivity.
  rewrite iter_xO_value. unfold units.
  replace (e + 1200) with (Z.pos d + (e' + 1200)) by lia.
  rewrite (Z.pow_add_r 2 (Z.pos d) (e' + 1200)) by lia. lia.
Qed.

Lemma shl_align_fst m e e' :
  e' <= e -> Z.pos (fst (shl_align m e e')) = Z.pos m * 2 ^ (e - e').
Proof.
  intros H. unfold shl_align. destruct (e' - e) as [|d|d] eqn:Hd; cbn [fst]; try lia.
  - replace (e - e') with 0 by lia. lia.
  - rewrite iter_xO_value. f_equal. f_equal. lia.
Qed.

(** [binary_round] first aligns its mantissa to at least 53 digits. *)
Lemma binary_round_aligned s p e :
  -1021 <= digits p + e -> -1074 <= e ->
  exists mz ez,
    binary_round prec emax s p e = binary_round_aux prec emax s (Z.pos mz) ez loc_Exact /\
    53 <= digits mz /\ -1074 <= ez /\ units (Z.pos mz) ez = units (Z.pos p) e.
Proof.
  intros Hmag He. unfold binary_round. fold (digits p). rewrite fexp_eq.
  pose proof (shl_align_mag p e (Z.max (digits p + e - 53) (-1074))) as Hm.
  pose proof (shl_align_units p e (Z.max (digits p + e - 53) (-1074)) ltac:(lia) ltac:(lia)) as Hu.
  destruct (Z_le_gt_dec (Z.max (digits p + e - 53) (-1074)) e) as [Hle | Hgt].
  - pose proof (shl_align_snd p e _ Hle) as Hs.
    destruct (shl_align p e (Z.max (digits p + e - 53) (-1074))) as [mz ez].
    cbn [fst snd] in *. exists mz, ez. split; [reflexivity|].
    split; [lia|]. split; [lia|]. exact Hu.
  - unfold shl_align in *.
    destruct (Z.max (digits p + e - 53) (-1074) - e) as [|d|d] eqn:Hd; try lia.
    cbn [fst snd] in *. exists p, e. split; [reflexivity|].
    split; [lia|]. split; [lia|]. reflexivity.
Qed.

Lemma binary_round_le s p e M j :
  -1021 <= digits p + e -> -1074 <= e -> 0 < M < 2 ^ 53 -> -1200 <= j <= 971 ->
  units (Z.pos p) e <= units M j ->
  exists m' e', binary_round prec emax s p e = S754_finite s m' e' /\
                units (Z.pos m') e' <= units M j.
Proof.
  intros Hmag He HM Hj Hle.
  destruct (binary_round_aligned s p e Hmag He) as (mz & ez & -> & Hd & Hez & Hu).
  destruct (bra_le s mz ez loc_Exact M j Hd Hez HM Hj) as (m' & e' & H1 & H2 & _).
  - cbn [upper_mantissa]. now rewrite Hu.
  - eauto.
Qed.

Lemma binary_round_ge s p e M j :
  -1021 <= digits p + e -> -1074 <= e -> 0 < M < 2 ^ 53 -> -1200 <= j ->
  units M j <= units (Z.pos p) e ->
  binary_round prec emax s p e = S754_infinity s \/
  exists m' e', binary_round prec emax s p e = S754_finite s m' e' /\
                units M j <= units (Z.pos m') e'.
Proof.
  intros Hmag He HM Hj Hle.
  destruct (binary_round_aligned s p e Hmag He) as (mz & ez & -> & Hd & Hez & Hu).
  apply bra_ge; try assumption. now rewrite Hu.
Qed.

(** Rounding a 53-digit mantissa that is within range changes nothing. *)
Lemma bra_exact_id s m e :
  digits m = 53 -> -1074 <= e <= 971 ->
  binary_round_aux prec emax s (Z.pos m) e loc_Exact = S754_finite s m e.
Proof.
  intros Hd He.
  destruct (bra_round s m e loc_Exact ltac:(lia) ltac:(lia))
    as (m2 & m' & e' & _ & Hex & He' & Hv & Hr & ->).
  rewrite Hd in *. change (53 - 53) with 0 in *. rewrite Z.add_0_r in *.
  change (2 ^ 0) with 1 in Hex. rewrite Z.mod_1_r, Z.div_1_r in Hex.
  specialize (Hex eq_refl eq_refl). subst m2.
  pose proof (digits_bounds m) as [Hl Hu]. rewrite Hd in Hl, Hu. change (53 - 1) with 52 in Hl.
  assert (e' = e).
  { destruct (Z.eq_dec e' e) as [|Hne]; [assumption|]. exfalso.
    assert (H2 : 2 ^ 1 <= 2 ^ (e' - e)) by (apply Z.pow_le_mono_r; lia).
    change (2 ^ 1) with 2 in H2. nia. }
  subst e'. rewrite Z.sub_diag in Hv. change (2 ^ 0) with 1 in Hv.
  replace (e <=? 971) with true by (symmetry; apply Z.leb_le; lia).
  f_equal. lia.
Qed.

(** An integer below 2^53 converts to binary64 without rounding. *)
Lemma float_of_int_pos n :
  1 <= n < 2 ^ 53 ->
  exists m e, Prim2SF (float_of_int n) = S754_finite false m e /\
              digits m = 53 /\ -52 <= e <= 0 /\ Z.pos m = n * 2 ^ (- e).
Proof.
  intros Hn. unfold float_of_int.
  replace (n =? - 2 ^ 63) with false by (symmetry; apply Z.eqb_neq; lia).
  replace (n <? 0) with false by (symmetry; apply Z.ltb_ge; lia).
  rewrite FloatAxioms.of_uint63_spec.
  rewrite Uint63.of_Z_spec. rewrite Z.mod_small by (change Uint63.wB with (2 ^ 63); lia).
  destruct n as [|p|p]; try lia. cbn [binary_normalize].
  unfold binary_round. fold (digits p). rewrite fexp_eq.
  pose proof (digits_pos p) as Hp1.
  assert (Hp2 : digits p <= 53) by (apply digits_le; lia).
  replace (Z.max (digits p + 0 - 53) (-1074)) with (digits p - 53) by lia.
  pose proof (shl_align_mag p 0 (digits p - 53)) as Hmag.
  pose proof (shl_align_snd p 0 (digits p - 53) ltac:(lia)) as Hsnd.
  pose proof (shl_align_fst p 0 (digits p - 53) ltac:(lia)) as Hfst.
  destruct (shl_align p 0 (digits p - 53)) as [mz ez]. cbn [fst snd] in *. subst ez.
  rewrite bra_exact_id by lia.
  exists mz, (digits p - 53). split; [reflexivity|]. split; [lia|]. split; [lia|].
  rewrite Hfst. replace (0 - (digits p - 53)) with (- (digits p - 53)) by lia. reflexivity.
Qed.

Lemma float_of_int_neg n :
  - 2 ^ 53 < n <= -1 ->
  exists m e, Prim2SF (float_of_int n) = S754_finite true m e /\
              digits m = 53 /\ -52 <= e <= 0 /\ Z.pos m = - n * 2 ^ (- e).
Proof.
  intros Hn. destruct (float_of_int_pos (- n) ltac:(lia)) as (m & e & Hm & Hd & He & Hv).
  exists m, e. split; [|auto].
  unfold float_of_int in *.
  replace (n =? - 2 ^ 63) with false by (symmetry; apply Z.eqb_neq; lia).
  replace (n <? 0) with true by (symmetry; apply Z.ltb_lt; lia).
  replace (- n =? - 2 ^ 63) with false in Hm by (symmetry; apply Z.eqb_neq; lia).
  replace (- n <? 0) with false in Hm by (symmetry; apply Z.ltb_ge; lia).
  rewrite FloatAxioms.opp_spec, Hm. reflexivity.
Qed.

(** The value of a converted integer, in units of 2^-1200. *)
Lemma units_of_int m e n :
  -52 <= e <= 0 -> Z.pos m = n * 2 ^ (- e) -> units (Z.pos m) e = n * 2 ^ 1200.
Proof.
  intros He Hv. unfold units. rewrite Hv.
  replace 1200 with (- e + (e + 1200)) at 2 by lia.
  rewrite (Z.pow_add_r 2 (- e) (e + 1200)) by lia. lia.
Qed.

Lemma new_location_zero n : new_location n 0 = loc_Exact.
Proof. unfold new_location. destruct (Z.even n); reflexivity. Qed.

Lemma upper_mantissa_le m l : upper_mantissa m l <= m + 1.
Proof. destruct l; cbn; lia. Qed.

(** The quotient of two converted integers stays below a bound [M * 2^-k]
    of the exact quotient. *)
Lemma float_div_le I N M k :
  0 <= k <= 52 ->
  1 <= I < 2 ^ 53 -> 1 <= N < 2 ^ 53 -> 0 < M < 2 ^ 53 ->
  I * 2 ^ k <= N * M -> I < N * 2 ^ (53 - k) ->
  exists m e, Prim2SF (float_of_int I / float_of_int N) = S754_finite false m e /\
              units (Z.pos m) e <= units M (- k) /\ -105 <= e.
Proof.
  intros Hk HI HN HM Hle Hlt.
  destruct (float_of_int_pos I HI) as (mI & eI & HfI & HdI & HeI & HvI).
  destruct (float_of_int_pos N HN) as (mN & eN & HfN & HdN & HeN & HvN).
  rewrite FloatAxioms.div_spec, HfI, HfN. cbn [SF64div SFdiv xorb].
  unfold SFdiv_core_binary. rewrite fexp_eq. cbn [Zdigits2]. fold (digits mI) (digits mN).
  rewrite HdI, HdN. cbv zeta.
  replace (Z.min (Z.max (53 + eI - (53 + eN) - 53) (-1074)) (eI - eN)) with (eI - eN - 53) by lia.
  replace (eI - eN - (eI - eN - 53)) with 53 by lia.
  rewrite Z.shiftl_mul_pow2 by lia. rewrite div_eucl_eq.
  pose proof (digits_bounds mI) as [HlI HuI]. pose proof (digits_bounds mN) as [HlN HuN].
  rewrite HdI in HlI, HuI. rewrite HdN in HlN, HuN. change (53 - 1) with 52 in *.
  set (X := Z.pos mI * 2 ^ 53). set (e := eI - eN - 53).
  set (A := 2 ^ (- eI)) in *. set (B := 2 ^ (- eN)) in *.
  assert (HA : 0 < A) by (apply pow2_pos; lia).
  assert (HB : 0 < B) by (apply pow2_pos; lia).
  set (C := 2 ^ (53 - k)) in *.
  assert (HC : 0 < C) by (apply pow2_pos; lia).
  pose proof (pow2_pos k ltac:(lia)) as HP.
  assert (HPC : 2 ^ k * C = 2 ^ 53).
  { unfold C. rewrite <- Z.pow_add_r by lia. f_equal. lia. }
  pose proof (Z.div_mod X (Z.pos mN) ltac:(lia)) as Hdm.
  pose proof (Z.mod_pos_bound X (Z.pos mN) ltac:(lia)) as Hrb.
  assert (HQ : 2 ^ 52 <= X / Z.pos mN).
  { apply Z.div_le_lower_bound; [lia|]. unfold X. nia. }
  destruct (X / Z.pos mN) as [|q|q] eqn:Hq; try lia.
  assert (Hdq : 53 <= digits q) by (apply (digits_ge q 52); lia).
  (* the bound lies on the grid of the quotient *)
  assert (Hgrid : eI - eN <= 53 - k).
  { destruct (Z_le_gt_dec (eI - eN) (53 - k)) as [|Hgt]; [assumption|]. exfalso.
    assert (HBA : B = 2 ^ (eI - eN - (54 - k)) * (2 * C * A)).
    { unfold A, B, C. change 2 with (2 ^ 1) at 3. rewrite <- !Z.pow_add_r by lia. f_equal. lia. }
    assert (H1 : 1 <= 2 ^ (eI - eN - (54 - k))).
    { pose proof (pow2_pos (eI - eN - (54 - k)) ltac:(lia)). lia. }
    assert (H2 : 2 * C * A <= B) by (rewrite HBA; nia).
    assert (H3 : I * A * 2 < N * B).
    { assert (I * A < N * C * A) by (apply Z.mul_lt_mono_pos_r; lia).
      assert (N * (2 * C * A) <= N * B) by (apply Z.mul_le_mono_nonneg_l; lia).
      lia. }
    lia. }
  set (T := M * 2 ^ (53 - k - eI + eN)).
  assert (HTB : T * B = M * C * A).
  { unfold T, A, B, C. rewrite <- !Z.mul_assoc. f_equal.
    rewrite <- !Z.pow_add_r by lia. f_equal. lia. }
  assert (HXT : X <= Z.pos mN * T).
  { rewrite HvN. replace (N * B * T) with (N * (T * B)) by lia. rewrite HTB.
    unfold X. rewrite HvI, <- HPC.
    replace (I * A * (2 ^ k * C)) with (I * 2 ^ k * (C * A)) by lia.
    replace (N * (M * C * A)) with (N * M * (C * A)) by lia.
    apply Z.mul_le_mono_nonneg_r; [|exact Hle]. apply Z.lt_le_incl, Z.mul_pos_pos; lia. }
  assert (Hup : upper_mantissa (Z.pos q) (new_location (Z.pos mN) (X mod Z.pos mN)) <= T).
  { destruct (Z.eq_dec (X mod Z.pos mN) 0) as [Hz | Hnz].
    - rewrite Hz, new_location_zero. cbn [upper_mantissa].
      apply Z.mul_le_mono_pos_l with (p := Z.pos mN); lia.
    - pose proof (upper_mantissa_le (Z.pos q) (new_location (Z.pos mN) (X mod Z.pos mN))).
      assert (Z.pos q < T) by (apply Z.mul_lt_mono_pos_l with (p := Z.pos mN); lia).
      lia. }
  assert (HuT : units T e = units M (- k)).
  { unfold units, T, e. rewrite <- Z.mul_assoc. f_equal.
    rewrite <- Z.pow_add_r by lia. f_equal. lia. }
  destruct (bra_le false q e (new_location (Z.pos mN) (X mod Z.pos mN)) M (- k))
    as (m' & e' & Hbra & Hb & He'); try lia.
  { rewrite <- HuT. unfold units. apply Z.mul_le_mono_nonneg_r; [|exact Hup].
    apply Z.lt_le_incl, pow2_pos. unfold e. lia. }
  exists m', e'. split; [exact Hbra|]. split; [exact Hb|]. unfold e in He'. lia.
Qed.

(** The order of two binary64 values of the same sign follows their values. *)
Lemma SFltb_units_pos m1 e1 m2 e2 :
  valid_binary (S754_finite false m1 e1) = true ->
  valid_binary (S754_finite false m2 e2) = true ->
  units (Z.pos m1) e1 < units (Z.pos m2) e2 ->
  SFltb (S754_finite false m1 e1) (S754_finite false m2 e2) = true.
Proof.
  intros H1 H2 Hlt. apply canonical_cases in H1, H2.
  unfold SFltb. cbn [SFcompare].
  destruct (Z.compare_spec e1 e2) as [Heq | Hl | Hg]; [| reflexivity |].
  - subst e2. rewrite Pos.compare_cont_spec. cbn [Pos.switch_Eq].
    unfold units in Hlt. apply Z.mul_lt_mono_pos_r in Hlt; [|apply pow2_pos; lia].
    destruct (Pos.compare_spec m1 m2); try reflexivity; lia.
  - exfalso. assert (Hd1 : digits m1 = 53) by lia.
    pose proof (digits_bounds m1) as [Hl1 _]. rewrite Hd1 in Hl1. change (53 - 1) with 52 in Hl1.
    pose proof (digits_bounds m2) as [_ Hu2].
    assert (Hm2 : Z.pos m2 < 2 ^ 53).
    { assert (2 ^ digits m2 <= 2 ^ 53) by (apply Z.pow_le_mono_r; lia). lia. }
    pose proof (units_ge_pow (Z.pos m1) e1 Hl1 ltac:(lia)) as Ha.
    pose proof (units_lt_pow (Z.pos m2) e2 ltac:(lia) ltac:(lia)) as Hb.
    assert (2 ^ (e2 + 1253) <= 2 ^ (e1 + 1252)) by (apply Z.pow_le_mono_r; lia).
    lia.
Qed.

Lemma valid_binary_sign s m e :
  valid_binary (S754_finite s m e) = valid_binary (S754_finite false m e).
Proof. reflexivity. Qed.

Lemma SFltb_units_neg m1 e1 m2 e2 :
  valid_binary (S754_finite true m1 e1) = true ->
  valid_binary (S754_finite true m2 e2) = true ->
  units (Z.pos m2) e2 < units (Z.pos m1) e1 ->
  SFltb (S754_finite true m1 e1) (S754_finite true m2 e2) = true.
Proof.
  intros H1 H2 Hlt. rewrite valid_binary_sign in H1, H2.
  pose proof (SFltb_units_pos m2 e2 m1 e1 H2 H1 Hlt) as H.
  unfold SFltb in *. cbn [SFcompare] in *.
  destruct (Z.compare_spec e1 e2) as [Heq | Hl | Hg].
  - subst e2. rewrite Z.compare_refl in H. rewrite Pos.compare_cont_spec in *.
    cbn [Pos.switch_Eq] in *. rewrite (Pos.compare_antisym m1 m2) in H.
    destruct (m1 ?= m2)%positive; cbn in *; congruence.
  - rewrite (proj2 (Z.compare_gt_iff e2 e1)) in H by lia. discriminate.
  - reflexivity.
Qed.

Lemma binary_round_sign s p e : has_sign s (binary_round prec emax s p e).
Proof.
  unfold binary_round. destruct (shl_align p e _) as [mz ez]. apply bra_sign. lia.
Qed.

Lemma units_add a b e : units (a + b) e = units a e + units b e.
Proof. unfold units. lia. Qed.

Lemma units_opp a e : units (- a) e = - units a e.
Proof. unfold units. lia. Qed.

Lemma units_pos m e : -1200 <= e -> 0 < units (Z.pos m) e.
Proof. intros. unfold units. pose proof (pow2_pos (e + 1200) ltac:(lia)). lia. Qed.

Lemma units_mono a b e : a <= b -> units a e <= units b e.
Proof.
  intros H. unfold units. apply Z.mul_le_mono_nonneg_r; [|exact H]. apply Z.pow_nonneg. lia.
Qed.

Lemma units_int n k : 0 <= k <= 1200 -> units (n * 2 ^ k) (- k) = n * 2 ^ 1200.
Proof.
  intros Hk. unfold units. rewrite <- Z.mul_assoc, <- Z.pow_add_r by lia.
  f_equal. f_equal. lia.
Qed.

Lemma units_below_int M n k : 0 <= k <= 1200 -> M < n * 2 ^ k -> units M (- k) < n * 2 ^ 1200.
Proof.
  intros Hk H. rewrite <- (units_int n k Hk). unfold units.
  apply Z.mul_lt_mono_pos_r; [|exact H]. apply pow2_pos. lia.
Qed.

Lemma units_nonpos M e : M <= 0 -> units M e <= 0.
Proof.
  intros H. unfold units. pose proof (Z.pow_nonneg 2 (e + 1200) ltac:(lia)). nia.
Qed.

(** [k] bits for the resolution leave [52 - k] bits for the limits. *)
Lemma bit_budget k h :
  0 <= k <= 52 -> - 2 ^ (52 - k) <= h <= 2 ^ (52 - k) ->
  - 2 ^ 52 <= h * 2 ^ k <= 2 ^ 52 /\ - 2 ^ 52 <= h <= 2 ^ 52.
Proof.
  intros Hk Hh.
  pose proof (pow2_pos k ltac:(lia)) as HP.
  assert (HPQ : 2 ^ (52 - k) * 2 ^ k = 2 ^ 52).
  { rewrite <- Z.pow_add_r by lia. f_equal. lia. }
  assert (HQ : 2 ^ (52 - k) <= 2 ^ 52) by (apply Z.pow_le_mono_r; lia).
  split; [|lia]. split.
  - rewrite <- HPQ. rewrite <- Z.mul_opp_l. apply Z.mul_le_mono_nonneg_r; lia.
  - rewrite <- HPQ. apply Z.mul_le_mono_nonneg_r; lia.
Qed.

(** The exact sum that the addition of two finite floats rounds. *)
Lemma SFadd_finite sx mx ex sy my ey :
  -1200 <= ex -> -1200 <= ey ->
  exists S,
    SFadd prec emax (S754_finite sx mx ex) (S754_finite sy my ey)
    = binary_normalize prec emax S (Z.min ex ey) false /\
    units S (Z.min ex ey)
    = units (cond_Zopp sx (Z.pos mx)) ex + units (cond_Zopp sy (Z.pos my)) ey.
Proof.
  intros Hx Hy. cbn [SFadd]. eexists. split; [reflexivity|].
  rewrite units_add.
  pose proof (shl_align_units mx ex (Z.min ex ey) ltac:(lia) Hx) as Ux.
  pose proof (shl_align_units my ey (Z.min ex ey) ltac:(lia) Hy) as Uy.
  rewrite shl_align_snd in Ux, Uy by lia.
  destruct sx, sy; cbn [cond_Zopp]; rewrite ?units_opp, Ux, Uy; reflexivity.
Qed.

(** A sum whose exact value is at most [hi - 2^-k] rounds to a float
    below [hi]. *)
Lemma normalize_below x S ez hi k :
  Prim2SF x = binary_normalize prec emax S ez false ->
  -1000 <= ez -> 0 <= k <= 52 -> - 2 ^ (52 - k) <= hi <= 2 ^ (52 - k) ->
  units S ez <= units (hi * 2 ^ k - 1) (- k) ->
  (x <? float_of_int hi)%float = true.
Proof.
  intros Hx Hez Hk Hhi Hle. rewrite FloatAxioms.ltb_spec.
  destruct (bit_budget k hi Hk Hhi) as [HhP Hh52].
  pose proof (pow2_pos k ltac:(lia)) as HP.
  pose proof (Prim2SF_valid x) as Vx. pose proof (Prim2SF_valid (float_of_int hi)) as Vh.
  rewrite Hx in *. clear Hx.
  destruct S as [|p|p]; cbn [binary_normalize] in *.
  - (* the sum is zero *)
    assert (Hpos : 1 <= hi).
    { destruct (Z_lt_le_dec hi 1); [|assumption]. exfalso.
      assert (hi * 2 ^ k <= 0) by nia.
      assert (H1 : units (hi * 2 ^ k - 1) (- k) < units 0 (- k)).
      { unfold units. apply Z.mul_lt_mono_pos_r; [apply pow2_pos|]; lia. }
      unfold units in Hle, H1. lia. }
    destruct (float_of_int_pos hi ltac:(lia)) as (mh & eh & -> & _). reflexivity.
  - (* the sum is positive *)
    pose proof (units_pos p ez ltac:(lia)) as Hp.
    assert (HM : 0 < hi * 2 ^ k - 1).
    { destruct (Z_lt_le_dec 0 (hi * 2 ^ k - 1)); [assumption|]. exfalso.
      pose proof (units_nonpos (hi * 2 ^ k - 1) (- k) ltac:(lia)). lia. }
    assert (Hpos : 1 <= hi) by nia.
    pose proof (digits_pos p) as Hd.
    destruct (binary_round_le false p ez (hi * 2 ^ k - 1) (- k)) as (m' & e' & Hr & Hb);
      try lia.
    rewrite Hr in *.
    destruct (float_of_int_pos hi ltac:(lia)) as (mh & eh & Hh & _ & Heh & Hvh).
    rewrite Hh in *. apply SFltb_units_pos; try assumption.
    rewrite (units_of_int mh eh hi Heh Hvh).
    pose proof (units_below_int (hi * 2 ^ k - 1) hi k ltac:(lia) ltac:(lia)). lia.
  - (* the sum is negative *)
    pose proof (binary_round_sign true p ez) as Hs.
    destruct (Z_lt_le_dec 0 hi) as [Hpos | Hneg].
    + destruct (float_of_int_pos hi ltac:(lia)) as (mh & eh & -> & _).
      destruct (binary_round prec emax true p ez) as [s | s | | s m e];
        cbn [has_sign] in Hs; try contradiction; subst; reflexivity.
    + pose proof (digits_pos p) as Hd.
      assert (HhP0 : hi * 2 ^ k <= 0) by nia.
      assert (Hge : units (1 - hi * 2 ^ k) (- k) <= units (Z.pos p) ez).
      { change (Z.neg p) with (- Z.pos p) in Hle. rewrite units_opp in Hle.
        replace (1 - hi * 2 ^ k) with (- (hi * 2 ^ k - 1)) by lia. rewrite units_opp. lia. }
      assert (H2 : units (- hi * 2 ^ k) (- k) < units (1 - hi * 2 ^ k) (- k)).
      { unfold units. apply Z.mul_lt_mono_pos_r; [apply pow2_pos|]; lia. }
      rewrite units_int in H2 by lia.
      destruct (binary_round_ge true p ez (1 - hi * 2 ^ k) (- k)) as [Hr | (m' & e' & Hr & Hb)];
        try lia.
      * rewrite Hr. destruct (Z.eq_dec hi 0) as [-> | Hnz]; [reflexivity|].
        destruct (float_of_int_neg hi ltac:(lia)) as (mh & eh & -> & _). reflexivity.
      * rewrite Hr in *. destruct (Z.eq_dec hi 0) as [-> | Hnz]; [reflexivity|].
        destruct (float_of_int_neg hi ltac:(lia)) as (mh & eh & Hh & _ & Heh & Hvh).
        rewrite Hh in *. apply SFltb_units_neg; try assumption.
        rewrite (units_of_int mh eh (- hi) Heh Hvh). lia.
Qed.

(** The value of a converted integer below 2^53 in magnitude, with its sign. *)
Lemma float_of_int_value n :
  - 2 ^ 53 < n < 2 ^ 53 -> n <> 0 ->
  exists s m e, Prim2SF (float_of_int n) = S754_finite s m e /\ -52 <= e <= 0 /\
                units (cond_Zopp s (Z.pos m)) e = n * 2 ^ 1200.
Proof.
  intros Hn Hnz. destruct (Z_lt_le_dec n 0) as [Hneg | Hpos].
  - destruct (float_of_int_neg n ltac:(lia)) as (m & e & Hm & _ & He & Hv).
    exists true, m, e. split; [exact Hm|]. split; [exact He|].
    cbn [cond_Zopp]. rewrite units_opp, (units_of_int m e (- n) He Hv). lia.
  - destruct (float_of_int_pos n ltac:(lia)) as (m & e & Hm & _ & He & Hv).
    exists false, m, e. split; [exact Hm|]. split; [exact He|].
    cbn [cond_Zopp]. apply units_of_int; assumption.
Qed.

Lemma binary_round_opp p e :
  SFopp (binary_round prec emax false p e) = binary_round prec emax true p e.
Proof.
  unfold binary_round. destruct (shl_align p e _) as [mz ez]. unfold binary_round_aux.
  destruct (shr_fexp prec emax (Z.pos mz) ez loc_Exact) as [mrs' e'].
  destruct (shr_fexp prec emax _ e' loc_Exact) as [mrs'' e''].
  destruct (shr_m mrs''); try reflexivity. destruct (e'' <=? emax - prec); reflexivity.
Qed.

(** A converted integer is the rounding of the integer itself. *)
Lemma float_of_int_normalize n :
  - 2 ^ 63 < n < 2 ^ 63 ->
  Prim2SF (float_of_int n) = binary_normalize prec emax n 0 false.
Proof.
  intros Hn. unfold float_of_int.
  replace (n =? - 2 ^ 63) with false by (symmetry; apply Z.eqb_neq; lia).
  destruct (n <? 0) eqn:Hneg; [apply Z.ltb_lt in Hneg | apply Z.ltb_ge in Hneg].
  - rewrite FloatAxioms.opp_spec, FloatAxioms.of_uint63_spec, Uint63.of_Z_spec.
    rewrite Z.mod_small by (change Uint63.wB with (2 ^ 63); lia).
    destruct n as [|p|p]; try lia. cbn [Z.opp binary_normalize]. apply binary_round_opp.
  - rewrite FloatAxioms.of_uint63_spec, Uint63.of_Z_spec.
    rewrite Z.mod_small by (change Uint63.wB with (2 ^ 63); lia). reflexivity.
Qed.

End FloatProofs.


Lemma py_range_nil lo hi : hi <= lo -> py_range lo hi = [].
Proof.
  intros H. unfold py_range. replace (Z.to_nat (hi - lo)) with 0%nat by lia. reflexivity.
Qed.

Lemma py_range_cons lo hi : lo < hi -> py_range lo hi = lo :: py_range (lo + 1) hi.
Proof.
  intros H. unfold py_range.
  replace (Z.to_nat (hi - lo)) with (S (Z.to_nat (hi - (lo + 1)))) by lia.
  cbn [seq map]. f_equal; [lia|].
  rewrite <- seq_shift, map_map. apply map_ext. intros k. lia.
Qed.

Lemma py_range_length lo hi : length (py_range lo hi) = Z.to_nat (hi - lo).
Proof. unfold py_range. now rewrite length_map, length_seq. Qed.

Lemma py_range_snoc lo hi : lo <= hi -> py_range lo (hi + 1) = py_range lo hi ++ [hi].
Proof.
  intros H. unfold py_range.
  replace (Z.to_nat (hi + 1 - lo)) with (Z.to_nat (hi - lo) + 1)%nat by lia.
  rewrite seq_app, map_app. cbn [seq map]. do 2 f_equal. lia.
Qed.

Lemma for_each_app {S : Type} (xs ys : list Z) (body : Z -> S -> option S) (s : S) :
  for_each (xs ++ ys) body s
  = match for_each xs body s with Some s' => for_each ys body s' | None => None end.
Proof.
  revert s. induction xs as [|k xs IH]; intros s; cbn [for_each app]; [reflexivity|].
  destruct (body k s); [apply IH | reflexivity].
Qed.

(** A loop over [range(lo, hi)] whose body preserves an invariant indexed by
    the loop counter runs to completion and establishes the invariant at
    [hi]. *)
Lemma for_each_range {S : Type} (P : Z -> S -> Prop) (body : Z -> S -> option S)
  (hi : Z) (n : nat) :
  (forall k s, k < hi -> P k s -> exists s', body k s = Some s' /\ P (k + 1) s') ->
  forall lo s, Z.to_nat (hi - lo) = n -> lo <= hi -> P lo s ->
  exists s', for_each (py_range lo hi) body s = Some s' /\ P hi s'.
Proof.
  intros Hbody. induction n as [|n IH]; intros lo s Hn Hle HP.
  - rewrite py_range_nil by lia. replace hi with lo by lia. exists s. auto.
  - rewrite py_range_cons by lia. cbn [for_each].
    destruct (Hbody lo s ltac:(lia) HP) as (s1 & -> & HP1).
    apply IH; [lia | lia | exact HP1].
Qed.

Lemma py_range_app lo mid hi :
  lo <= mid -> mid <= hi -> py_range lo hi = py_range lo mid ++ py_range mid hi.
Proof.
  intros H1 H2. remember (Z.to_nat (mid - lo)) as n eqn:Hn. revert lo H1 Hn.
  induction n as [|n IH]; intros lo H1 Hn.
  - replace lo with mid by lia. now rewrite (py_range_nil mid mid) by lia.
  - rewrite (py_range_cons lo hi), (py_range_cons lo mid) by lia.
    cbn [app]. f_equal. apply IH; lia.
Qed.

(** A loop whose body ignores the counter depends on the number of
    iterations only. *)
Lemma for_each_counter_free {S : Type} (g : S -> option S) (xs ys : list Z) :
  length xs = length ys ->
  forall s, for_each xs (fun _ => g) s = for_each ys (fun _ => g) s.
Proof.
  revert ys. induction xs as [|x xs IH]; intros [|y ys] Hlen s; try discriminate;
    [reflexivity|].
  cbn [for_each]. destruct (g s) as [s'|]; [|reflexivity].
  apply IH. now injection Hlen.
Qed.

(** Running such a loop [a + b] times is running it [a] times and then [b]
    times. *)
Lemma for_each_steps_add {S : Type} (g : S -> option S) (a b : Z) (s : S) :
  0 <= a -> 0 <= b ->
  for_each (py_range 0 (a + b)) (fun _ => g) s
  = match for_each (py_range 0 a) (fun _ => g) s with
    | Some s' => for_each (py_range 0 b) (fun _ => g) s'
    | None => None
    end.
Proof.
  intros Ha Hb. rewrite (py_range_app 0 a (a + b)) by lia. rewrite for_each_app.
  destruct (for_each (py_range 0 a) (fun _ => g) s) as [s'|]; [|reflexivity].
  apply for_each_counter_free. rewrite !py_range_length. lia.
Qed.

Module MandelbrotProofs.
Import Mandelbrot FloatFacts FloatProofs.

Section EscapeTime.

Variable np_abs : Complex -> float.

(** What a run of the loop from index [i] up to (excluding) [hi] returns,
    when it is entered with z = z_{i-1}. *)
Lemma f_loop_range (c : Complex) (limit : float) (n : nat) :
  forall (i hi : Z) (tests : nat),
    1 <= i -> Z.to_nat (hi - i) = n ->
    let out := f_loop np_abs (py_range i hi) (orbit c (Z.to_nat (i - 1))) c limit tests in
    (fst out = -1 /\ snd out = (tests + n)%nat /\
     forall j, i <= j < hi -> ~ exceeds np_abs limit c j)
    \/
    (i <= fst out < hi /\ snd out = (tests + Z.to_nat (fst out - i) + 1)%nat /\
     exceeds np_abs limit c (fst out) /\
     forall j, i <= j < fst out -> ~ exceeds np_abs limit c j).
Proof.
  induction n as [|n IH]; intros i hi tests Hi Hn out; subst out.
  - rewrite py_range_nil by lia. cbn. left. repeat split; [lia | intros j Hj; lia].
  - rewrite py_range_cons by lia. cbn [f_loop].
    assert (Hz : cadd (cmul (orbit c (Z.to_nat (i - 1))) (orbit c (Z.to_nat (i - 1)))) c
                 = orbit c (Z.to_nat i)).
    { replace (Z.to_nat i) with (S (Z.to_nat (i - 1))) by lia. reflexivity. }
    rewrite Hz.
    destruct (limit <? np_abs (orbit c (Z.to_nat i)))%float eqn:Hcmp.
    + right. cbn [fst snd].
      split; [lia|]. split; [lia|]. split; [exact Hcmp|].
      intros j Hj. lia.
    + specialize (IH (i + 1) hi (S tests)).
      replace (i + 1 - 1) with i in IH by lia.
      assert (Hi_no : ~ exceeds np_abs limit c i).
      { unfold exceeds. rewrite Hcmp. discriminate. }
      destruct IH as [(Hr & Ht & Hall) | (Hr & Ht & Hex & Hall)]; [lia | lia | |].
      * left. split; [exact Hr|]. split; [lia|].
        intros j Hj. destruct (Z.eq_dec j i) as [->|Hne]; [exact Hi_no|].
        apply Hall. lia.
      * right. split; [lia|]. split; [lia|]. split; [exact Hex|].
        intros j Hj. destruct (Z.eq_dec j i) as [->|Hne]; [exact Hi_no|].
        apply Hall. lia.
Qed.

(** [f] from the start of its loop. *)
Lemma f_run_spec (real imag : float) (max_iter : Z) (limit : float) :
  let c := complex real imag in
  let out := f_run np_abs real imag max_iter limit in
  (fst out = -1 /\ snd out = Z.to_nat (max_iter - 1) /\
   forall j, 1 <= j < max_iter -> ~ exceeds np_abs limit c j)
  \/
  (1 <= fst out < max_iter /\ snd out = Z.to_nat (fst out) /\
   exceeds np_abs limit c (fst out) /\
   forall j, 1 <= j < fst out -> ~ exceeds np_abs limit c j).
Proof.
  intros c out. subst out. unfold f_run.
  pose proof (f_loop_range c limit (Z.to_nat (max_iter - 1)) 1 max_iter 0%nat
                ltac:(lia) eq_refl) as H.
  cbv zeta in H. change (orbit c (Z.to_nat (1 - 1))) with (complex 0 0) in H.
  fold c.
  destruct H as [(Hr & Ht & Hall) | (Hr & Ht & Hex & Hall)].
  - left. split; [exact Hr|]. split; [lia | exact Hall].
  - right. split; [exact Hr|]. split; [lia|]. split; assumption.
Qed.

(** The escape-time contract that [f] meets, for every [max_iter] and
    [limit]: the budget is [max_iter - 1] iterations. *)
Lemma f_escape_time_gen (real imag : float) (max_iter : Z) (limit : float) :
  escape_time np_abs (max_iter - 1) limit (complex real imag)
    (f np_abs real imag max_iter limit).
Proof.
  unfold escape_time, f.
  destruct (f_run_spec real imag max_iter limit) as [(Hr & _ & Hall) | (Hr & _ & Hex & Hall)].
  - left. split; [exact Hr|]. intros i Hi. apply Hall. lia.
  - right. split; [lia|]. split; assumption.
Qed.

(** The values [f] can return. *)
Lemma f_result_range (real imag : float) (max_iter : Z) (limit : float) :
  f np_abs real imag max_iter limit = -1 \/
  1 <= f np_abs real imag max_iter limit <= max_iter - 1.
Proof.
  unfold f.
  destruct (f_run_spec real imag max_iter limit) as [(Hr & _) | (Hr & _)]; lia.
Qed.

End EscapeTime.

(** C9: for every input and every [max_iter >= 1], [f] returns the sentinel
    -1 or an index [i] with [1 <= i <= max_iter - 1]; it never returns 0 and
    never returns [max_iter], and the quadratic map is applied and tested
    against the bound at most [max_iter - 1] times. *)
Theorem f_return_range (np_abs : Complex -> float) (real imag : float)
  (max_iter : Z) (limit : float) :
  1 <= max_iter ->
  let r := f np_abs real imag max_iter limit in
  (r = -1 \/ 1 <= r <= max_iter - 1) /\ r <> 0 /\ r <> max_iter /\
  Z.of_nat (f_tests np_abs real imag max_iter limit) <= max_iter - 1.
Proof.
  intros Hmax r. subst r. unfold f, f_tests.
  destruct (f_run_spec np_abs real imag max_iter limit)
    as [(Hr & Ht & _) | (Hr & Ht & _)]; rewrite Ht; lia.
Qed.

Lemma f_return_range_witness :
  let r := f np_abs_model 10 0 200 1e6 in
  (r = -1 \/ 1 <= r <= 200 - 1) /\ r <> 0 /\ r <> 200 /\
  Z.of_nat (f_tests np_abs_model 10 0 200 1e6) <= 200 - 1.
Proof. apply (f_return_range np_abs_model 10 0 200 1e6). lia. Defined.

(** C1, as amended: for every coordinate, [f] with its default parameters
    iterates z -> z*z + c from z = 0 and returns the first index in
    [1 .. max_iter - 1 = 199] at which the magnitude exceeds [limit], or -1
    when the magnitude exceeds it at no index in [1 .. 199]. *)
Theorem f_escape_time (np_abs : Complex -> float) (real imag : float) :
  escape_time np_abs (default_max_iter - 1) default_limit (complex real imag)
    (f np_abs real imag default_max_iter default_limit).
Proof.
  unfold escape_time, f.
  destruct (f_run_spec np_abs real imag default_max_iter default_limit)
    as [(Hr & _ & Hall) | (Hr & _ & Hex & Hall)].
  - left. split; [exact Hr|]. intros i Hi. apply Hall. lia.
  - right. split; [lia|]. split; assumption.
Qed.

(** C1 as stated, with the whole iteration count [max_iter = 200] as the
    budget, fails: at c = 0.25025177001953125 the magnitude first exceeds
    the bound at iteration 200, and [f] returns the sentinel. *)
Lemma f_escape_time_at_max_iter_fails :
  ~ escape_time np_abs_model default_max_iter default_limit
      (complex 0.25025177001953125 0)
      (f np_abs_model 0.25025177001953125 0 default_max_iter default_limit).
Proof.
  assert (Hf : f np_abs_model 0.25025177001953125 0 default_max_iter default_limit = -1)
    by (vm_compute; reflexivity).
  rewrite Hf. intros [(_ & Hall) | (Hr & _)]; [|lia].
  apply (Hall 200); [unfold default_max_iter; lia|].
  vm_compute. reflexivity.
Qed.

Lemma orbit_origin n : orbit (complex 0 0) n = complex 0 0.
Proof. induction n as [|n IH]; [reflexivity|]. cbn [orbit]. rewrite IH. reflexivity. Qed.

(** C5: at the origin the quadratic map has the fixed point z = 0, so the
    magnitude never exceeds the bound and [f(0, 0)] with the default
    parameters returns the sentinel -1 (given that the magnitude of 0 is 0). *)
Theorem f_origin (np_abs : Complex -> float) :
  np_abs (complex 0 0) = 0%float ->
  quadratic_map (complex 0 0) (complex 0 0) = complex 0 0 /\
  f np_abs 0 0 default_max_iter default_limit = -1.
Proof.
  intros Habs. split; [reflexivity|].
  destruct (f_escape_time_gen np_abs 0 0 default_max_iter default_limit)
    as [(Hr & _) | (_ & Hex & _)]; [exact Hr|].
  unfold exceeds in Hex. rewrite orbit_origin, Habs in Hex. vm_compute in Hex. discriminate.
Qed.

Lemma f_origin_witness :
  quadratic_map (complex 0 0) (complex 0 0) = complex 0 0 /\
  f np_abs_model 0 0 default_max_iter default_limit = -1.
Proof. apply (f_origin np_abs_model). reflexivity. Defined.

(** C6: at the coordinate (10, 0) the orbit is 10, 110, 12110, 146652110, so
    [f] with the default parameters returns the index 4: positive, not the
    sentinel, and at most 10 (given that the magnitude of a real number is
    its absolute value). *)
Theorem f_far_outside (np_abs : Complex -> float) :
  (forall x : float, np_abs (complex x 0) = PrimFloat.abs x) ->
  let r := f np_abs 10 0 default_max_iter default_limit in
  r = 4 /\ 1 <= r <= 10 /\ r <> -1.
Proof.
  intros Habs r. subst r.
  assert (Hex : forall i, 1 <= i <= 4 ->
            (default_limit <? np_abs (orbit (complex 10 0) (Z.to_nat i)))%float
            = (i =? 4)).
  { intros i Hi.
    assert (Hc : i = 1 \/ i = 2 \/ i = 3 \/ i = 4) by lia.
    destruct Hc as [-> | [-> | [-> | ->]]].
    - change (orbit (complex 10 0) (Z.to_nat 1)) with (complex 10 0).
      rewrite Habs. reflexivity.
    - change (orbit (complex 10 0) (Z.to_nat 2)) with (complex 110 0).
      rewrite Habs. reflexivity.
    - change (orbit (complex 10 0) (Z.to_nat 3)) with (complex 12110 0).
      rewrite Habs. reflexivity.
    - change (orbit (complex 10 0) (Z.to_nat 4)) with (complex 146652110 0).
      rewrite Habs. reflexivity. }
  assert (H4 : f np_abs 10 0 default_max_iter default_limit = 4).
  { destruct (f_escape_time_gen np_abs 10 0 default_max_iter default_limit)
      as [(_ & Hall) | (Hr & Hx & Hall)].
    - exfalso. apply (Hall 4); [unfold default_max_iter; lia|].
      unfold exceeds. now rewrite Hex by lia.
    - set (r := f np_abs 10 0 default_max_iter default_limit) in *.
      destruct (Z_lt_le_dec 4 r) as [Hgt | Hle].
      + exfalso. apply (Hall 4); [lia|]. unfold exceeds. now rewrite Hex by lia.
      + unfold exceeds in Hx. rewrite Hex in Hx by lia. apply Z.eqb_eq in Hx. exact Hx. }
  rewrite H4. lia.
Qed.

Lemma f_far_outside_witness :
  let r := f np_abs_model 10 0 default_max_iter default_limit in
  r = 4 /\ 1 <= r <= 10 /\ r <> -1.
Proof. apply (f_far_outside np_abs_model). intros x. reflexivity. Defined.

(** *** The height grid *)

Lemma coordinate_total (lo hi : number) (k N : Z) :
  0 < N < 2 ^ 63 -> exists x, coordinate lo hi k N = Some x.
Proof.
  intros HN. unfold coordinate, num_truediv, py_div. cbn [to_float].
  rewrite (nan_or_at_least_nonzero 1) by (right; apply float_of_int_at_least; lia).
  eauto.
Qed.

Lemma iterations_at_total (np_abs : Complex -> float) (a b c d : number) (N i j : Z) :
  0 < N < 2 ^ 63 -> exists iterations, iterations_at np_abs a b c d N i j = Some iterations.
Proof.
  intros HN. unfold iterations_at.
  destruct (coordinate_total a b i N HN) as [x ->].
  destruct (coordinate_total c d j N HN) as [y ->]. eauto.
Qed.

Lemma np_zeros2_shape (N : Z) :
  0 <= N ->
  exists heights, np_zeros2 N N = Some heights /\
    has_shape (Z.to_nat N) (Z.to_nat N) heights /\
    forall i j, 0 <= i < N -> 0 <= j < N -> get_cell heights j i = Some 0%float.
Proof.
  intros HN. unfold np_zeros2.
  replace (N <? 0) with false by (symmetry; apply Z.ltb_ge; lia). cbn [orb].
  eexists. split; [reflexivity|]. split.
  - split; [apply length_replicate|].
    apply Forall_replicate, length_replicate.
  - intros i j Hi Hj. unfold get_cell.
    replace (j <? 0) with false by (symmetry; apply Z.ltb_ge; lia).
    replace (i <? 0) with false by (symmetry; apply Z.ltb_ge; lia). cbn [orb].
    rewrite lookup_replicate_2 by lia. apply lookup_replicate_2. lia.
Qed.

Lemma set_cell_spec (n : nat) (heights : grid) (j i : Z) (v : float) :
  has_shape n n heights -> 0 <= j < Z.of_nat n -> 0 <= i < Z.of_nat n ->
  exists heights', set_cell heights j i v = Some heights' /\
    has_shape n n heights' /\
    forall j' i', get_cell heights' j' i'
                  = if (j' =? j) && (i' =? i) then Some v else get_cell heights j' i'.
Proof.
  intros [Hlen Hrows] Hj Hi.
  assert (Hjlt : (Z.to_nat j < length heights)%nat) by lia.
  destruct (lookup_lt_is_Some_2 heights (Z.to_nat j) Hjlt) as [row Hrow].
  assert (Hrowlen : length row = n).
  { exact (Forall_lookup_1 _ _ _ _ Hrows Hrow). }
  unfold set_cell.
  replace (j <? 0) with false by (symmetry; apply Z.ltb_ge; lia).
  replace (i <? 0) with false by (symmetry; apply Z.ltb_ge; lia). cbn [orb].
  rewrite Hrow.
  replace (Z.to_nat i <? length row)%nat with true by (symmetry; apply Nat.ltb_lt; lia).
  eexists. split; [reflexivity|]. split.
  - split; [now rewrite length_insert|].
    apply Forall_insert; [exact Hrows | now rewrite length_insert].
  - intros j' i'. unfold get_cell.
    destruct (j' <? 0) eqn:Hj'; [apply Z.ltb_lt in Hj' | apply Z.ltb_ge in Hj'].
    { cbn [orb]. replace (j' =? j) with false by (symmetry; apply Z.eqb_neq; lia).
      reflexivity. }
    destruct (i' <? 0) eqn:Hi'; [apply Z.ltb_lt in Hi' | apply Z.ltb_ge in Hi'].
    { cbn [orb]. replace (i' =? i) with false by (symmetry; apply Z.eqb_neq; lia).
      now rewrite andb_false_r. }
    cbn [orb].
    destruct (Z.eqb_spec j' j) as [-> | Hne]; cbn [andb].
    + rewrite list_lookup_insert_eq by exact Hjlt. rewrite Hrow.
      destruct (Z.eqb_spec i' i) as [-> | Hne'].
      * apply list_lookup_insert_eq. lia.
      * apply list_lookup_insert_ne. lia.
    + rewrite list_lookup_insert_ne by lia. reflexivity.
Qed.

Ltac decide_visited :=
  unfold visited;
  repeat match goal with
         | |- context [?x <? ?y] => destruct (Z.ltb_spec x y)
         | |- context [?x =? ?y] => destruct (Z.eqb_spec x y)
         end;
  cbn [orb andb]; try reflexivity; try lia.

Section CalcHeights.

Variable np_abs : Complex -> float.
Variables a b c d : number.
Variable N : Z.
Hypothesis N_range : 0 < N < 2 ^ 63.

Lemma cell_body_iterations (I J : Z) (heights : grid) :
  cell_body np_abs a b c d N I J heights
  = match iterations_at np_abs a b c d N I J with
    | Some iterations =>
        if 0 <? iterations then set_cell heights J I (float_of_int iterations)
        else Some heights
    | None => None
    end.
Proof.
  unfold cell_body, iterations_at.
  destruct (coordinate a b I N); [|reflexivity].
  destruct (coordinate c d J N); reflexivity.
Qed.

(** One pass through the loop body moves the invariant to the next row. *)
Lemma cell_body_step (I J : Z) (heights : grid) :
  0 <= I < N -> 0 <= J < N ->
  heights_upto np_abs a b c d N I J heights ->
  exists heights', cell_body np_abs a b c d N I J heights = Some heights' /\
                   heights_upto np_abs a b c d N I (J + 1) heights'.
Proof.
  intros HI HJ [Hshape Hcells].
  destruct (Hcells I J HI HJ) as (it & Hit & Hget).
  replace (visited I J I J) with false in Hget by decide_visited.
  rewrite cell_body_iterations, Hit.
  destruct (0 <? it) eqn:Hpos.
  - destruct (set_cell_spec (Z.to_nat N) heights J I (float_of_int it) Hshape)
      as (heights' & Hset & Hshape' & Hget'); [lia | lia |].
    exists heights'. split; [exact Hset|]. split; [exact Hshape'|].
    intros i j Hi Hj. destruct (Hcells i j Hi Hj) as (it' & Hit' & Hold).
    exists it'. split; [exact Hit'|]. rewrite Hget'.
    destruct (Z.eqb_spec j J) as [-> | Hne]; cbn [andb].
    + destruct (Z.eqb_spec i I) as [-> | Hne'].
      * replace (visited I (J + 1) I J) with true by decide_visited.
        rewrite Hit in Hit'. injection Hit' as <-.
        unfold height_of. now rewrite Hpos.
      * rewrite Hold. replace (visited I (J + 1) i J) with (visited I J i J)
          by decide_visited. reflexivity.
    + rewrite Hold. replace (visited I (J + 1) i j) with (visited I J i j)
        by decide_visited. reflexivity.
  - exists heights. split; [reflexivity|]. split; [exact Hshape|].
    intros i j Hi Hj. destruct (Hcells i j Hi Hj) as (it' & Hit' & Hold).
    exists it'. split; [exact Hit'|]. rewrite Hold.
    destruct (Z.eqb_spec j J) as [-> | Hne]; [destruct (Z.eqb_spec i I) as [-> | Hne']|].
    + replace (visited I J I J) with false by decide_visited.
      replace (visited I (J + 1) I J) with true by decide_visited.
      rewrite Hit in Hit'. injection Hit' as <-.
      unfold height_of. now rewrite Hpos.
    + replace (visited I (J + 1) i J) with (visited I J i J) by decide_visited.
      reflexivity.
    + replace (visited I (J + 1) i j) with (visited I J i j) by decide_visited.
      reflexivity.
Qed.

(** The inner loop fills column [I]. *)
Lemma column_loop (I : Z) (heights : grid) :
  0 <= I < N ->
  heights_upto np_abs a b c d N I 0 heights ->
  exists heights',
    for_each (py_range 0 N) (fun j hs => cell_body np_abs a b c d N I j hs) heights
    = Some heights' /\
    heights_upto np_abs a b c d N (I + 1) 0 heights'.
Proof.
  intros HI Hinv.
  destruct (for_each_range
              (fun J hs => 0 <= J <= N /\ heights_upto np_abs a b c d N I J hs)
              (fun j hs => cell_body np_abs a b c d N I j hs)
              N (Z.to_nat (N - 0))) with (lo := 0) (s := heights)
    as (heights' & Hrun & _ & Hshape & Hcells); try lia.
  - intros J hs HJ [HJ0 HinvJ].
    destruct (cell_body_step I J hs HI ltac:(lia) HinvJ) as (hs' & Hbody & Hinv').
    exists hs'. split; [exact Hbody|]. split; [lia | exact Hinv'].
  - split; [lia | exact Hinv].
  - exists heights'. split; [exact Hrun|]. split; [exact Hshape|].
    intros i j Hi Hj. destruct (Hcells i j Hi Hj) as (it & Hit & Hget).
    exists it. split; [exact Hit|]. rewrite Hget.
    replace (visited (I + 1) 0 i j) with (visited I N i j) by decide_visited.
    reflexivity.
Qed.

(** [calc_heights] returns an N-by-N grid whose cells follow [f]. *)
Lemma calc_heights_spec :
  exists heights,
    calc_heights np_abs a b c d N = Some heights /\
    has_shape (Z.to_nat N) (Z.to_nat N) heights /\
    cells_follow_f np_abs a b c d N heights.
Proof.
  unfold calc_heights.
  destruct (np_zeros2_shape N ltac:(lia)) as (zeros & -> & Hshape0 & Hzero).
  destruct (for_each_range
              (fun I hs => 0 <= I <= N /\ heights_upto np_abs a b c d N I 0 hs)
              (fun i hs => for_each (py_range 0 N)
                             (fun j hs' => cell_body np_abs a b c d N i j hs') hs)
              N (Z.to_nat (N - 0))) with (lo := 0) (s := zeros)
    as (heights & Hrun & _ & Hshape & Hcells); try lia.
  - intros I hs HI [HI0 HinvI].
    destruct (column_loop I hs ltac:(lia) HinvI) as (hs' & Hcol & Hinv').
    exists hs'. split; [exact Hcol|]. split; [lia | exact Hinv'].
  - split; [lia|]. split; [exact Hshape0|].
    intros i j Hi Hj.
    destruct (iterations_at_total np_abs a b c d N i j N_range) as (it & Hit).
    exists it. split; [exact Hit|]. rewrite Hzero by assumption.
    replace (visited 0 0 i j) with false by decide_visited. reflexivity.
  - exists heights. split; [exact Hrun|]. split; [exact Hshape|].
    intros i j Hi Hj. destruct (Hcells i j Hi Hj) as (it & Hit & Hget).
    exists it. split; [exact Hit|]. rewrite Hget.
    replace (visited N 0 i j) with true by decide_visited. reflexivity.
Qed.

End CalcHeights.

Lemma get_cell_in_range (n : nat) (heights : grid) (j i : Z) (v : float) :
  has_shape n n heights -> get_cell heights j i = Some v ->
  0 <= j < Z.of_nat n /\ 0 <= i < Z.of_nat n.
Proof.
  intros [Hlen Hrows]. unfold get_cell.
  destruct (j <? 0) eqn:Hj; [discriminate | apply Z.ltb_ge in Hj].
  destruct (i <? 0) eqn:Hi; [discriminate | apply Z.ltb_ge in Hi]. cbn [orb].
  destruct (heights !! Z.to_nat j) as [row|] eqn:Hrow; [|discriminate].
  intros Hv. pose proof (Forall_lookup_1 _ _ _ _ Hrows Hrow) as Hrowlen. cbv beta in Hrowlen.
  apply lookup_lt_Some in Hrow. apply lookup_lt_Some in Hv. lia.
Qed.

Lemma In_py_range (lo hi k : Z) : lo <= k < hi -> In k (py_range lo hi).
Proof.
  intros Hk. unfold py_range. apply in_map_iff. exists (Z.to_nat (k - lo)).
  split; [lia|]. apply in_seq. lia.
Qed.

(** C7: for every positive resolution [N] (a machine integer),
    [calc_heights(a, b, c, d, N)] returns a grid of [N] rows of [N] entries
    each. *)
Theorem calc_heights_shape (np_abs : Complex -> float) (a b c d : number) (N : Z) :
  0 < N < 2 ^ 63 ->
  exists heights, calc_heights np_abs a b c d N = Some heights /\
                  has_shape (Z.to_nat N) (Z.to_nat N) heights.
Proof.
  intros HN.
  destruct (calc_heights_spec np_abs a b c d N HN) as (heights & Hrun & Hshape & _).
  exists heights. split; assumption.
Qed.

Lemma calc_heights_shape_witness :
  exists heights,
    calc_heights np_abs_model (Int (-2)) (Int 1) (Int (-1)) (Int 1) 3 = Some heights /\
    has_shape 3 3 heights.
Proof.
  apply (calc_heights_shape np_abs_model (Int (-2)) (Int 1) (Int (-1)) (Int 1) 3). lia.
Defined.

(** C3: every cell of the grid returned by [calc_heights] holds either the
    sentinel 0 (the sample returned -1: it did not diverge within the bound)
    or a positive iteration count [k], [1 <= k <= 199], returned by the
    sample; no cell holds anything else. *)
Theorem calc_heights_cells (np_abs : Complex -> float) (a b c d : number) (N : Z) :
  0 < N < 2 ^ 63 ->
  exists heights, calc_heights np_abs a b c d N = Some heights /\
    forall j i v, get_cell heights j i = Some v ->
      (v = 0%float /\ iterations_at np_abs a b c d N i j = Some (-1))
      \/
      (exists k, 1 <= k <= default_max_iter - 1 /\
                 iterations_at np_abs a b c d N i j = Some k /\
                 v = float_of_int k /\ (0 <? v)%float = true).
Proof.
  intros HN.
  destruct (calc_heights_spec np_abs a b c d N HN) as (heights & Hrun & Hshape & Hcells).
  exists heights. split; [exact Hrun|].
  intros j i v Hv.
  destruct (get_cell_in_range _ _ _ _ _ Hshape Hv) as [Hj Hi].
  destruct (Hcells i j ltac:(lia) ltac:(lia)) as (it & Hit & Hget).
  rewrite Hget in Hv. injection Hv as <-.
  assert (Hrange : it = -1 \/ 1 <= it <= default_max_iter - 1).
  { unfold iterations_at in Hit.
    destruct (coordinate a b i N) as [x|]; [|discriminate].
    destruct (coordinate c d j N) as [y|]; [|discriminate].
    injection Hit as <-.
    apply (f_result_range np_abs x y default_max_iter default_limit). }
  unfold default_max_iter in *.
  destruct Hrange as [-> | Hk].
  - left. split; [reflexivity | exact Hit].
  - right. exists it. split; [exact Hk|]. split; [exact Hit|].
    unfold height_of. replace (0 <? it) with true by (symmetry; apply Z.ltb_lt; lia).
    split; [reflexivity|].
    apply (at_least_positive 1), float_of_int_at_least. lia.
Qed.

Lemma calc_heights_cells_witness :
  exists heights,
    calc_heights np_abs_model (Int (-2)) (Int 1) (Int (-1)) (Int 1) 3 = Some heights /\
    forall j i v, get_cell heights j i = Some v ->
      (v = 0%float /\
       iterations_at np_abs_model (Int (-2)) (Int 1) (Int (-1)) (Int 1) 3 i j = Some (-1))
      \/
      (exists k, 1 <= k <= default_max_iter - 1 /\
                 iterations_at np_abs_model (Int (-2)) (Int 1) (Int (-1)) (Int 1) 3 i j
                 = Some k /\
                 v = float_of_int k /\ (0 <? v)%float = true).
Proof.
  apply (calc_heights_cells np_abs_model (Int (-2)) (Int 1) (Int (-1)) (Int 1) 3). lia.
Defined.

Lemma wrap64_small n : - 2 ^ 63 <= n < 2 ^ 63 -> wrap64 n = n.
Proof. intros H. unfold wrap64. rewrite Z.mod_small by lia. lia. Qed.

(** For integer limits [lo < hi] of at most [2^(52-k)] in magnitude and a
    resolution of at most [2^k], every sampled coordinate
    [lo + i*(hi-lo)/N] with [0 <= i < N] is a float below [hi]. *)
Lemma coordinate_below (lo hi i N k : Z) :
  0 <= k <= 52 -> 0 < N <= 2 ^ k ->
  - 2 ^ (52 - k) <= lo -> lo < hi -> hi <= 2 ^ (52 - k) -> 0 <= i < N ->
  exists x, coordinate (Int lo) (Int hi) i N = Some x /\
            (x <? float_of_int hi)%float = true.
Proof.
  intros Hk HN Hlo Hlt Hhi Hi.
  destruct (bit_budget k lo Hk ltac:(lia)) as [HloP Hlo52].
  destruct (bit_budget k hi Hk ltac:(lia)) as [HhiP Hhi52].
  pose proof (pow2_pos k ltac:(lia)) as HP.
  set (C := 2 ^ (53 - k)).
  assert (HC : C = 2 * 2 ^ (52 - k)).
  { unfold C. replace (53 - k) with (1 + (52 - k)) by lia.
    rewrite (Z.pow_add_r 2 1 (52 - k)) by lia. reflexivity. }
  assert (HPC : 2 ^ k * C = 2 ^ 53).
  { unfold C. rewrite <- Z.pow_add_r by lia. f_equal. lia. }
  assert (Hw : hi - lo <= C) by lia.
  unfold coordinate, num_truediv, py_div, num_mul, num_sub. cbn [to_float].
  rewrite (wrap64_small (hi - lo)) by lia.
  assert (HI : 0 <= i * (hi - lo) <= (N - 1) * (hi - lo)) by nia.
  assert (HI' : (N - 1) * (hi - lo) < N * C) by nia.
  assert (HN53 : N * C <= 2 ^ 53) by (rewrite <- HPC; apply Z.mul_le_mono_nonneg_r; lia).
  rewrite (wrap64_small (i * (hi - lo))) by lia.
  rewrite (nan_or_at_least_nonzero 1) by (right; apply float_of_int_at_least; lia).
  cbn [num_add to_float]. eexists. split; [reflexivity|].
  set (I := i * (hi - lo)) in *.
  destruct (Z.eq_dec I 0) as [HI0 | HI0].
  - (* the first sample is the lower limit itself *)
    rewrite HI0. change (float_of_int 0) with 0%float.
    rewrite (zero_div_at_least 1) by (apply float_of_int_at_least; lia).
    rewrite add_zero_r by (apply float_of_int_not_neg_zero; lia).
    apply (normalize_below _ lo 0 hi k); try lia.
    + apply float_of_int_normalize. lia.
    + change (units lo 0) with (lo * 2 ^ 1200). rewrite <- (units_int lo k) by lia.
      apply units_mono. nia.
  - set (M := (hi - lo) * 2 ^ k - 1).
    assert (Hi1 : 1 <= i) by (unfold I in HI0; nia).
    assert (HwP : (hi - lo) * 2 ^ k <= 2 ^ 53).
    { rewrite <- HPC, (Z.mul_comm (2 ^ k) C). apply Z.mul_le_mono_nonneg_r; lia. }
    assert (HM : 0 < M < 2 ^ 53) by (unfold M; nia).
    assert (HIM : I * 2 ^ k <= N * M).
    { unfold M.
      assert (I * 2 ^ k <= (N - 1) * (hi - lo) * 2 ^ k)
        by (apply Z.mul_le_mono_nonneg_r; lia).
      assert (N <= (hi - lo) * 2 ^ k) by nia.
      lia. }
    destruct (float_div_le I N M k) as (mq & eq & Hq & Hb & Heq); try lia.
    destruct (Z.eq_dec lo 0) as [-> | Hnz].
    + change (float_of_int 0) with 0%float.
      rewrite FloatAxioms.ltb_spec, FloatAxioms.add_spec.
      pose proof (Prim2SF_valid (float_of_int I / float_of_int N)) as Vq.
      pose proof (Prim2SF_valid (float_of_int hi)) as Vh.
      rewrite Hq in *. change (Prim2SF 0) with (S754_zero false). cbn [SF64add SFadd].
      destruct (float_of_int_pos hi ltac:(lia)) as (mh & eh & Hh & _ & Heh & Hvh).
      rewrite Hh in *. apply SFltb_units_pos; try assumption.
      rewrite (units_of_int mh eh hi Heh Hvh).
      pose proof (units_below_int M hi k ltac:(lia) ltac:(unfold M; lia)). lia.
    + destruct (float_of_int_value lo ltac:(lia) Hnz) as (sa & ma & ea & Ha & Hea & Hva).
      destruct (SFadd_finite sa ma ea false mq eq ltac:(lia) ltac:(lia)) as (S & HS & HuS).
      apply (normalize_below _ S (Z.min ea eq) hi k); try lia.
      * rewrite FloatAxioms.add_spec, Ha, Hq. exact HS.
      * rewrite HuS, Hva. cbn [cond_Zopp].
        assert (units (Z.pos mq) eq <= units ((hi - lo) * 2 ^ k - 1) (- k)) by exact Hb.
        replace (hi * 2 ^ k - 1) with (lo * 2 ^ k + ((hi - lo) * 2 ^ k - 1)) by lia.
        rewrite units_add, units_int by lia. lia.
Qed.

Lemma ltb_not_eqb (x y : float) : (x <? y)%float = true -> (x =? y)%float = false.
Proof.
  rewrite FloatAxioms.ltb_spec, FloatAxioms.eqb_spec. unfold SFltb, SFeqb.
  destruct (SFcompare (Prim2SF x) (Prim2SF y)) as [[| |]|]; congruence.
Qed.

Lemma integer_window_excludes (k : Z) (lo hi : number) (N : Z) :
  0 < N -> integer_window k lo hi N -> excludes_endpoint lo hi N.
Proof.
  intros HN (Hk & HNk & Hw) i x Hi Hx.
  destruct lo as [l|]; [|contradiction]. destruct hi as [h|]; [|destruct Hw].
  destruct Hw as (Hl & Hlh & Hh).
  destruct (coordinate_below l h i N k Hk ltac:(lia) Hl Hlh Hh Hi) as (x' & Hx' & Hlt).
  rewrite Hx in Hx'. injection Hx' as <-. cbn [to_float]. now apply ltb_not_eqb.
Qed.

(** C10, as amended: for all [a, b, c, d] and every positive [N], cell
    [[j, i]] of the grid returned by [calc_heights] is [f]'s result at
    [(a + i*(b-a)/N, c + j*(d-c)/N)] when that result is positive and 0
    otherwise; and when the limits are integers with [a < b] (resp.
    [c < d]), [N <= 2^k] and the limits have magnitude at most [2^(52-k)]
    for some [k] in [0..52], no sampled x-coordinate equals [b] (resp. no
    sampled y-coordinate equals [d]). *)
Theorem calc_heights_follow_f (np_abs : Complex -> float) (a b c d : number) (N : Z) :
  0 < N < 2 ^ 63 ->
  (exists heights, calc_heights np_abs a b c d N = Some heights /\
                   cells_follow_f np_abs a b c d N heights) /\
  (forall k, integer_window k a b N -> excludes_endpoint a b N) /\
  (forall k, integer_window k c d N -> excludes_endpoint c d N).
Proof.
  intros HN. split; [|split].
  - destruct (calc_heights_spec np_abs a b c d N HN) as (heights & Hrun & _ & Hcells).
    exists heights. split; assumption.
  - intros k. apply integer_window_excludes. lia.
  - intros k. apply integer_window_excludes. lia.
Qed.

Lemma calc_heights_follow_f_witness :
  (exists heights,
     calc_heights np_abs_model Script.a Script.b Script.c Script.d Script.N = Some heights /\
     cells_follow_f np_abs_model Script.a Script.b Script.c Script.d Script.N heights) /\
  excludes_endpoint Script.a Script.b Script.N /\
  excludes_endpoint Script.c Script.d Script.N.
Proof.
  destruct (calc_heights_follow_f np_abs_model Script.a Script.b Script.c Script.d Script.N)
    as (Hcells & Hx & Hy); [unfold Script.N; lia|].
  split; [exact Hcells|].
  split; [apply (Hx 10) | apply (Hy 10)]; unfold integer_window, Script.N; cbn; lia.
Defined.

(** C10 as stated, for all limits, fails.  With [a = b] every sampled
    x-coordinate is the endpoint [b] itself; with float limits one unit in
    the last place apart ([a = 1], [b = 1 + 2^-52], [N = 4]) the sample of
    index 3 rounds to [b]; and with the integer limits [a = 2^51],
    [b = 2^51 + 1] and [N = 4] the sample of index 3, [2^51 + 0.75], rounds
    to [b] as well. *)
Lemma endpoint_sampled :
  ~ heights_follow_f_and_exclude_endpoints np_abs_model (Int 0) (Int 0) (Int 0) (Int 0) 1 /\
  ~ heights_follow_f_and_exclude_endpoints np_abs_model
      (Float 1) (Float 0x1.0000000000001p0) (Float 1) (Float 0x1.0000000000001p0) 4 /\
  ~ heights_follow_f_and_exclude_endpoints np_abs_model
      (Int (2 ^ 51)) (Int (2 ^ 51 + 1)) (Int (2 ^ 51)) (Int (2 ^ 51 + 1)) 4.
Proof.
  split; [|split].
  - intros (_ & Hx & _). specialize (Hx 0 0%float ltac:(lia) eq_refl).
    vm_compute in Hx. discriminate.
  - intros (_ & Hx & _). specialize (Hx 3 0x1.0000000000001p0%float ltac:(lia) eq_refl).
    vm_compute in Hx. discriminate.
  - intros (_ & Hx & _). specialize (Hx 3 2251799813685249%float ltac:(lia) eq_refl).
    vm_compute in Hx. discriminate.
Qed.

(** *** Further properties of [f] and [calc_heights] *)

(** X1: an escape index does not depend on the iteration limit that found
    it.  For [max_iter <= max_iter'], [f] with [max_iter] returns what [f]
    with [max_iter'] returns when that is an index below [max_iter], and the
    sentinel otherwise. *)
Theorem f_max_iter_stable (np_abs : Complex -> float) (real imag limit : float)
  (max_iter max_iter' : Z) :
  max_iter <= max_iter' ->
  f np_abs real imag max_iter limit
  = (let r := f np_abs real imag max_iter' limit in
     if (1 <=? r) && (r <? max_iter) then r else -1).
Proof.
  intros Hle. cbv zeta. unfold f.
  destruct (f_run_spec np_abs real imag max_iter limit)
    as [(Hr & _ & Hall) | (Hr & _ & Hex & Hall)];
    destruct (f_run_spec np_abs real imag max_iter' limit)
      as [(Hr' & _ & Hall') | (Hr' & _ & Hex' & Hall')].
  - rewrite Hr, Hr'. reflexivity.
  - rewrite Hr.
    destruct (Z.ltb_spec (fst (f_run np_abs real imag max_iter' limit)) max_iter) as [Hlt | Hge].
    + exfalso.
      apply (Hall (fst (f_run np_abs real imag max_iter' limit)) ltac:(lia)). exact Hex'.
    + now rewrite andb_false_r.
  - exfalso.
    apply (Hall' (fst (f_run np_abs real imag max_iter limit)) ltac:(lia)). exact Hex.
  - set (r := fst (f_run np_abs real imag max_iter limit)) in *.
    set (r' := fst (f_run np_abs real imag max_iter' limit)) in *.
    assert (r = r').
    { destruct (Z.lt_trichotomy r r') as [Hlt | [Heq | Hgt]]; [|exact Heq|].
      - exfalso. apply (Hall' r ltac:(lia)). exact Hex.
      - exfalso. apply (Hall r' ltac:(lia)). exact Hex'. }
    replace (1 <=? r') with true by (symmetry; apply Z.leb_le; lia).
    replace (r' <? max_iter) with true by (symmetry; apply Z.ltb_lt; lia).
    cbn [andb]. assumption.
Qed.

Lemma f_max_iter_stable_witness :
  f np_abs_model 10 0 5 1e6
  = (let r := f np_abs_model 10 0 200 1e6 in if (1 <=? r) && (r <? 5) then r else -1).
Proof. apply (f_max_iter_stable np_abs_model 10 0 1e6 5 200). lia. Defined.

(** X2: [f] stops at the first escape.  The number of times it applies the
    map and tests the magnitude is the index it returns, and
    [max_iter - 1] (or 0 when [max_iter <= 1]) when it returns the
    sentinel. *)
Theorem f_tests_exact (np_abs : Complex -> float) (real imag limit : float)
  (max_iter : Z) :
  Z.of_nat (f_tests np_abs real imag max_iter limit)
  = (if f np_abs real imag max_iter limit =? -1 then Z.max 0 (max_iter - 1)
     else f np_abs real imag max_iter limit).
Proof.
  unfold f, f_tests.
  destruct (f_run_spec np_abs real imag max_iter limit)
    as [(Hr & Ht & _) | (Hr & Ht & _)]; rewrite Ht.
  - rewrite Hr. cbn. lia.
  - replace (fst (f_run np_abs real imag max_iter limit) =? -1) with false
      by (symmetry; apply Z.eqb_neq; lia). lia.
Qed.

(** X3: a larger bound never lets a point escape earlier.  For
    [limit <= limit'], when [f] with [limit'] returns an index, [f] with
    [limit] returns an index that is no larger. *)
Theorem f_limit_monotone (np_abs : Complex -> float) (real imag limit limit' : float)
  (max_iter : Z) :
  (limit <=? limit')%float = true ->
  f np_abs real imag max_iter limit' <> -1 ->
  1 <= f np_abs real imag max_iter limit <= f np_abs real imag max_iter limit'.
Proof.
  intros Hle Hesc. unfold f in *.
  destruct (f_run_spec np_abs real imag max_iter limit')
    as [(Hr' & _) | (Hr' & _ & Hex' & _)]; [contradiction|].
  assert (Hex : exceeds np_abs limit (complex real imag)
                  (fst (f_run np_abs real imag max_iter limit'))).
  { unfold exceeds in *. eapply leb_ltb_trans; eassumption. }
  destruct (f_run_spec np_abs real imag max_iter limit)
    as [(_ & _ & Hall) | (Hr & _ & _ & Hall)].
  - exfalso.
    apply (Hall (fst (f_run np_abs real imag max_iter limit')) ltac:(lia)). exact Hex.
  - split; [lia|].
    destruct (Z_lt_le_dec (fst (f_run np_abs real imag max_iter limit'))
                (fst (f_run np_abs real imag max_iter limit))) as [Hlt | Hge]; [|exact Hge].
    exfalso.
    apply (Hall (fst (f_run np_abs real imag max_iter limit')) ltac:(lia)). exact Hex.
Qed.

Lemma f_limit_monotone_witness :
  1 <= f np_abs_model 10 0 200 100 <= f np_abs_model 10 0 200 1e6.
Proof.
  apply (f_limit_monotone np_abs_model 10 0 100 1e6 200).
  - reflexivity.
  - vm_compute. discriminate.
Defined.

(** X4: with [N = 0] [calc_heights] returns the empty grid, and the division
    by [N] in its loop body is never evaluated; a negative [N] raises at the
    allocation. *)
Theorem calc_heights_no_rows (np_abs : Complex -> float) (a b c d : number) (N : Z) :
  N <= 0 ->
  calc_heights np_abs a b c d N = (if N =? 0 then Some [] else None).
Proof.
  intros HN. unfold calc_heights, np_zeros2.
  destruct (Z.eqb_spec N 0) as [-> | Hne]; [reflexivity|].
  replace (N <? 0) with true by (symmetry; apply Z.ltb_lt; lia). reflexivity.
Qed.

Lemma calc_heights_no_rows_witness :
  calc_heights np_abs_model (Int (-2)) (Int 1) (Int (-1)) (Int 1) 0
  = (if 0 =? 0 then Some [] else None).
Proof.
  apply (calc_heights_no_rows np_abs_model (Int (-2)) (Int 1) (Int (-1)) (Int 1) 0). lia.
Defined.

Lemma py_int_count (k : Z) : 1 <= k <= default_max_iter - 1 -> py_int (float_of_int k) = Some k.
Proof.
  intros Hk.
  assert (Hall : forallb (fun k => match py_int (float_of_int k) with
                                   | Some k' => k' =? k
                                   | None => false
                                   end) (py_range 1 default_max_iter) = true)
    by (vm_compute; reflexivity).
  rewrite forallb_forall in Hall.
  specialize (Hall k (In_py_range 1 default_max_iter k ltac:(lia))). cbv beta in Hall.
  destruct (py_int (float_of_int k)) as [k'|]; [|discriminate].
  apply Z.eqb_eq in Hall. now subst.
Qed.

(** X5: the counts are stored without loss.  Converting a cell of the
    float grid back with [int] gives the count [f] returned for its sample,
    and 0 for the sentinel. *)
Theorem calc_heights_counts_exact (np_abs : Complex -> float) (a b c d : number) (N : Z) :
  0 < N < 2 ^ 63 ->
  exists heights, calc_heights np_abs a b c d N = Some heights /\
    forall i j, 0 <= i < N -> 0 <= j < N ->
      exists iterations v,
        iterations_at np_abs a b c d N i j = Some iterations /\
        get_cell heights j i = Some v /\
        py_int v = Some (Z.max 0 iterations).
Proof.
  intros HN.
  destruct (calc_heights_spec np_abs a b c d N HN) as (heights & Hrun & _ & Hcells).
  exists heights. split; [exact Hrun|].
  intros i j Hi Hj. destruct (Hcells i j Hi Hj) as (it & Hit & Hget).
  exists it, (height_of it). split; [exact Hit|]. split; [exact Hget|].
  assert (Hrange : it = -1 \/ 1 <= it <= default_max_iter - 1).
  { unfold iterations_at in Hit.
    destruct (coordinate a b i N) as [x|]; [|discriminate].
    destruct (coordinate c d j N) as [y|]; [|discriminate].
    injection Hit as <-.
    apply (f_result_range np_abs x y default_max_iter default_limit). }
  destruct Hrange as [-> | Hk]; [reflexivity|].
  unfold height_of.
  replace (0 <? it) with true by (symmetry; apply Z.ltb_lt; lia).
  rewrite py_int_count by exact Hk. f_equal. lia.
Qed.

Lemma calc_heights_counts_exact_witness :
  exists heights,
    calc_heights np_abs_model (Int (-2)) (Int 1) (Int (-1)) (Int 1) 3 = Some heights /\
    forall i j, 0 <= i < 3 -> 0 <= j < 3 ->
      exists iterations v,
        iterations_at np_abs_model (Int (-2)) (Int 1) (Int (-1)) (Int 1) 3 i j
        = Some iterations /\
        get_cell heights j i = Some v /\
        py_int v = Some (Z.max 0 iterations).
Proof.
  apply (calc_heights_counts_exact np_abs_model (Int (-2)) (Int 1) (Int (-1)) (Int 1) 3). lia.
Defined.

(** X6: the sampling starts at the lower limit.  For integer limits the
    coordinate of index 0 is the lower limit itself, whatever the upper
    limit and the resolution: column 0 is sampled at [x = a] and row 0 at
    [y = c]. *)
Theorem coordinate_first (lo hi N : Z) :
  - 2 ^ 63 <= lo < 2 ^ 63 -> 0 < N < 2 ^ 63 ->
  coordinate (Int lo) (Int hi) 0 N = Some (float_of_int lo).
Proof.
  intros Hlo HN. unfold coordinate, num_truediv, py_div, num_mul, num_sub.
  cbn [to_float].
  rewrite (nan_or_at_least_nonzero 1) by (right; apply float_of_int_at_least; lia).
  rewrite Z.mul_0_l. change (float_of_int (wrap64 0)) with 0%float.
  rewrite (zero_div_at_least 1) by (apply float_of_int_at_least; lia).
  cbn [num_add to_float]. f_equal. apply add_zero_r, float_of_int_not_neg_zero, Hlo.
Qed.

Lemma coordinate_first_witness :
  coordinate (Int (-2)) (Int 1) 0 1000 = Some (float_of_int (-2)).
Proof. apply (coordinate_first (-2) 1 1000); lia. Defined.

End MandelbrotProofs.

Module DoublePendulumProofs.
Import DoublePendulum FloatFacts FloatProofs.

Local Open Scope float_scope.

Lemma py_div_some (k : Z) (x d : float) :
  nan_or_at_least k d -> py_div x d = Some (x / d).
Proof. intros H. unfold py_div. now rewrite (nan_or_at_least_nonzero k). Qed.

Lemma l1_at_least : nan_or_at_least (-1) l1.
Proof. right. vm_compute. split; [reflexivity | discriminate]. Qed.

Lemma m2_at_least : nan_or_at_least (-3) m2.
Proof. right. vm_compute. split; [reflexivity | discriminate]. Qed.

Lemma two_at_least : nan_or_at_least 2 2.
Proof. right. vm_compute. split; [reflexivity | discriminate]. Qed.

(** The common factor m1 + m2*sin(theta1 - theta2)**2 of the four
    denominators is NaN or at least 2^-4, whatever [sin] returns. *)
Lemma mass_factor_at_least (s : float) : nan_or_at_least (-3) (m1 + m2 * sqr s).
Proof.
  apply (add_at_least_nonneg (-3)); [| | lia].
  - vm_compute. split; [reflexivity | discriminate].
  - apply (mul_at_least_nonneg (-3)); [|apply sqr_nonneg].
    vm_compute. split; [reflexivity | discriminate].
Qed.

(** [slope] raises no exception: none of its divisors is zero. *)
Lemma slope_total (sin cos : float -> float) (y : vec4) :
  exists v, slope sin cos y = Some v.
Proof.
  unfold slope. cbv zeta.
  pose proof (mass_factor_at_least (sin (y_0 y - y_1 y))) as HD.
  pose proof l1_at_least as Hl. fold l2 in Hl.
  pose proof m2_at_least as Hm. pose proof two_at_least as H2.
  assert (Hll : nan_or_at_least (-3) (l1 * l2)) by exact (nan_or_at_least_mul _ _ _ _ Hl Hl ltac:(lia)).
  assert (Hsq : nan_or_at_least (-3) (sqr l1)) by exact Hll.
  assert (HDD : nan_or_at_least (-7) (sqr (m1 + m2 * sqr (sin (y_0 y - y_1 y)))))
    by exact (nan_or_at_least_mul _ _ _ _ HD HD ltac:(lia)).
  assert (Hd1 : nan_or_at_least (-7) (l1 * l2 * (m1 + m2 * sqr (sin (y_0 y - y_1 y)))))
    by exact (nan_or_at_least_mul _ _ _ _ Hll HD ltac:(lia)).
  assert (H2a : nan_or_at_least (-2) (2 * sqr l1))
    by exact (nan_or_at_least_mul _ _ _ _ H2 Hsq ltac:(lia)).
  assert (H2b : nan_or_at_least (-6) (2 * sqr l1 * sqr l2))
    by exact (nan_or_at_least_mul _ _ _ _ H2a Hsq ltac:(lia)).
  assert (Hd2 : nan_or_at_least (-14)
                  (2 * sqr l1 * sqr l2 * sqr (m1 + m2 * sqr (sin (y_0 y - y_1 y)))))
    by exact (nan_or_at_least_mul _ _ _ _ H2b HDD ltac:(lia)).
  assert (H3a : nan_or_at_least (-5) (sqr l1 * l2))
    by exact (nan_or_at_least_mul _ _ _ _ Hsq Hl ltac:(lia)).
  assert (Hd3 : nan_or_at_least (-9) (sqr l1 * l2 * (m1 + m2 * sqr (sin (y_0 y - y_1 y)))))
    by exact (nan_or_at_least_mul _ _ _ _ H3a HD ltac:(lia)).
  assert (H4a : nan_or_at_least (-5) (m2 * l1))
    by exact (nan_or_at_least_mul _ _ _ _ Hm Hl ltac:(lia)).
  assert (H4b : nan_or_at_least (-9) (m2 * l1 * sqr l2))
    by exact (nan_or_at_least_mul _ _ _ _ H4a Hsq ltac:(lia)).
  assert (Hd4 : nan_or_at_least (-13)
                  (m2 * l1 * sqr l2 * (m1 + m2 * sqr (sin (y_0 y - y_1 y)))))
    by exact (nan_or_at_least_mul _ _ _ _ H4b HD ltac:(lia)).
  rewrite (py_div_some _ _ _ Hd1), (py_div_some _ _ _ Hd2),
    (py_div_some _ _ _ Hd3), (py_div_some _ _ _ Hd4).
  eauto.
Qed.

Lemma scale_half (u : vec4) : scale 0.5 u = halve u.
Proof. unfold scale, halve. now rewrite !half_mul_div. Qed.

(** One pass through the loop of [RK4] computes the four stages and their
    combination, whenever the derivative function returns. *)
Lemma RK4_body_stages (slope_fn : vec4 -> option vec4) (y : vec4) :
  (forall u, exists v, slope_fn u = Some v) ->
  exists k1 k2 k3 k4,
    rk4_stages slope_fn y k1 k2 k3 k4 /\
    RK4_body slope_fn y = Some (rk4_combine y k1 k2 k3 k4).
Proof.
  intros Htotal. unfold RK4_body, rk4_stages.
  destruct (Htotal y) as [s1 E1]. rewrite E1. cbv zeta. rewrite scale_half.
  destruct (Htotal (vadd y (halve (scale h s1)))) as [s2 E2]. rewrite E2. rewrite scale_half.
  destruct (Htotal (vadd y (halve (scale h s2)))) as [s3 E3]. rewrite E3.
  destruct (Htotal (vadd y (scale h s3))) as [s4 E4]. rewrite E4.
  exists (scale h s1), (scale h s2), (scale h s3), (scale h s4).
  split; [|reflexivity]. repeat split; eauto.
Qed.

(** [RK4] returns a state for every number of steps. *)
Lemma RK4_total (sin cos : float -> float) (y : vec4) (n : Z) :
  exists y', RK4 sin cos y n = Some y'.
Proof.
  unfold RK4, RK4_with. destruct (Z_lt_le_dec n 0) as [Hneg | Hpos].
  - rewrite py_range_nil by lia. cbn. eauto.
  - destruct (for_each_range (fun _ _ => True) (fun _ u => RK4_body (slope sin cos) u)
                n (Z.to_nat (n - 0))) with (lo := 0%Z) (s := y) as (y' & Hrun & _);
      try lia; try exact I; eauto.
    intros k u _ _.
    destruct (RK4_body_stages (slope sin cos) u (slope_total sin cos))
      as (k1 & k2 & k3 & k4 & _ & ->). eauto.
Qed.

(** C2: for every state [y] and every step count [n >= 0], [RK4] reaches a
    state [yn] after [n] steps without error, and its next step computes the
    four stages k1 = h*slope(yn), k2 = h*slope(yn + k1/2),
    k3 = h*slope(yn + k2/2), k4 = h*slope(yn + k3) and returns
    yn + (1/6)*(k1 + 2*k2 + 2*k3 + k4): a function of the state and [h]
    alone. *)
Theorem RK4_step (sin cos : float -> float) (y : vec4) (n : Z) :
  (0 <= n)%Z ->
  exists yn k1 k2 k3 k4,
    RK4 sin cos y n = Some yn /\
    rk4_stages (slope sin cos) yn k1 k2 k3 k4 /\
    RK4 sin cos y (n + 1) = Some (rk4_combine yn k1 k2 k3 k4).
Proof.
  intros Hn. destruct (RK4_total sin cos y n) as [yn Hyn].
  destruct (RK4_body_stages (slope sin cos) yn (slope_total sin cos))
    as (k1 & k2 & k3 & k4 & Hstages & Hbody).
  exists yn, k1, k2, k3, k4. split; [exact Hyn|]. split; [exact Hstages|].
  unfold RK4, RK4_with in *.
  rewrite py_range_snoc, for_each_app, Hyn by lia.
  cbn [for_each]. now rewrite Hbody.
Qed.

Lemma RK4_step_witness :
  exists yn k1 k2 k3 k4,
    RK4 (fun x => x) (fun x => x) zeros4 0 = Some yn /\
    rk4_stages (slope (fun x => x) (fun x => x)) yn k1 k2 k3 k4 /\
    RK4 (fun x => x) (fun x => x) zeros4 (0 + 1) = Some (rk4_combine yn k1 k2 k3 k4).
Proof. apply (RK4_step (fun x => x) (fun x => x) zeros4 0). lia. Defined.

(** *** The integrator on a zero derivative *)

Lemma RK4_body_zero_slope (y : vec4) : RK4_body zero_slope y = Some (vadd y zeros4).
Proof. reflexivity. Qed.

Lemma same_number_refl (x : float) : same_number x x.
Proof. now left. Qed.

Lemma same_number_trans (x y z : float) :
  same_number x y -> same_number y z -> same_number x z.
Proof.
  intros [-> | [Hx Hy]] [-> | [Hy' Hz]]; try (now left); right; split; assumption.
Qed.

Lemma add_zero_same_number (x : float) : same_number (x + 0) x.
Proof.
  destruct (PrimFloat.Leibniz.eqb x (-0)) eqn:E.
  - apply FloatAxioms.Leibniz.eqb_spec in E. subst x. right. split; reflexivity.
  - left. apply add_zero_r. intros ->. vm_compute in E. discriminate.
Qed.

Lemma vadd_zeros_same_state (y : vec4) : same_state (vadd y zeros4) y.
Proof. repeat split; apply add_zero_same_number. Qed.

Lemma vadd_zeros_id (y : vec4) : no_negative_zero y -> vadd y zeros4 = y.
Proof.
  intros (H0 & H1 & H2 & H3). destruct y as [a b c d]. unfold vadd, zeros4. cbn in *.
  now rewrite !add_zero_r.
Qed.

Lemma same_state_trans (u v w : vec4) : same_state u v -> same_state v w -> same_state u w.
Proof.
  intros (A0 & A1 & A2 & A3) (B0 & B1 & B2 & B3).
  repeat split; eapply same_number_trans; eassumption.
Qed.

Lemma same_state_refl (u : vec4) : same_state u u.
Proof. repeat split; apply same_number_refl. Qed.

(** C4, as amended: for every state [y] and every number of steps, [RK4]
    over an identically zero derivative returns a state that holds the same
    numbers as [y] (each component is the same float, or both are zeros), and
    returns [y] itself when no component of [y] is the negative zero. *)
Theorem RK4_zero_slope (y : vec4) (n : Z) :
  exists y', RK4_with zero_slope y n = Some y' /\
             same_state y' y /\
             (no_negative_zero y -> y' = y).
Proof.
  unfold RK4_with. destruct (Z_lt_le_dec n 0) as [Hneg | Hpos].
  - rewrite py_range_nil by lia. exists y. cbn. split; [reflexivity|].
    split; [apply same_state_refl | auto].
  - destruct (for_each_range
                (fun _ u => same_state u y /\ (no_negative_zero y -> u = y))
                (fun _ u => RK4_body zero_slope u)
                n (Z.to_nat (n - 0))) with (lo := 0%Z) (s := y) as (y' & Hrun & Hsame & Hid);
      try lia.
    + intros k u _ [Hsame Hid]. exists (vadd u zeros4).
      split; [apply RK4_body_zero_slope|]. split.
      * eapply same_state_trans; [apply vadd_zeros_same_state | exact Hsame].
      * intros Hy. rewrite (Hid Hy). now apply vadd_zeros_id.
    + split; [apply same_state_refl | auto].
    + exists y'. auto.
Qed.

(** C4 as stated, for every state, fails: a component that is the negative
    zero comes back as the positive zero after one step. *)
Lemma RK4_zero_slope_changes_negative_zero :
  RK4_with zero_slope (array4 (-0) 0 0 0) 1 <> Some (array4 (-0) 0 0 0).
Proof.
  intros H.
  apply (f_equal (fun r => match r with
                           | Some u => Prim2SF (y_0 u)
                           | None => S754_nan
                           end)) in H.
  vm_compute in H. discriminate.
Qed.

(** *** Further properties of the integrator, the animation and the energy *)

(** X7: steps compose.  For every derivative function, [RK4] with [a + b]
    steps is [RK4] with [a] steps followed by [RK4] with [b] steps on its
    result, an exception in the first part included. *)
Theorem RK4_steps_compose (slope_fn : vec4 -> option vec4) (y : vec4) (a b : Z) :
  (0 <= a)%Z -> (0 <= b)%Z ->
  RK4_with slope_fn y (a + b)
  = match RK4_with slope_fn y a with
    | Some y' => RK4_with slope_fn y' b
    | None => None
    end.
Proof.
  intros Ha Hb. unfold RK4_with.
  exact (for_each_steps_add (RK4_body slope_fn) a b y Ha Hb).
Qed.

Lemma RK4_steps_compose_witness :
  RK4_with zero_slope (array4 1 2 3 4) (2 + 3)
  = match RK4_with zero_slope (array4 1 2 3 4) 2 with
    | Some y' => RK4_with zero_slope y' 3
    | None => None
    end.
Proof. apply (RK4_steps_compose zero_slope (array4 1 2 3 4) 2 3); lia. Defined.

(** X8: the animation advances both pendulums by ten steps per frame and
    independently of each other.  After the calls [animate(0)], ...,
    [animate(k-1)] the globals are [RK4(y1, 10*k)] and [RK4(y2, 10*k)], and
    the call [animate(k)] draws exactly these two states, labelled [k]. *)
Theorem animation_state_steps (sin cos : float -> float) (y1 y2 : vec4) (k : Z) :
  (0 <= k)%Z ->
  exists y1' y2' drawn next,
    animation_state sin cos k (y1, y2) = Some (y1', y2') /\
    RK4 sin cos y1 (10 * k) = Some y1' /\
    RK4 sin cos y2 (10 * k) = Some y2' /\
    animate sin cos k (y1', y2') = Some (drawn, next) /\
    line1 drawn = get_positions sin cos y1' /\
    line2 drawn = get_positions sin cos y2' /\
    time_label drawn = k.
Proof.
  intros Hk. unfold animation_state.
  destruct (for_each_range
              (fun i st => (0 <= i)%Z /\
                           RK4 sin cos y1 (10 * i) = Some (fst st) /\
                           RK4 sin cos y2 (10 * i) = Some (snd st))
              (fun i st => match animate sin cos i st with
                           | Some r => Some (snd r)
                           | None => None
                           end)
              k (Z.to_nat (k - 0))) with (lo := 0%Z) (s := (y1, y2))
    as ([y1' y2'] & Hrun & _ & H1 & H2); try lia.
  - intros i [u1 u2] Hi (Hi0 & Hu1 & Hu2). cbn [fst snd] in *.
    unfold animate. cbn [fst snd]. cbv zeta.
    destruct (RK4_total sin cos u1 10) as [v1 Hv1].
    destruct (RK4_total sin cos u2 10) as [v2 Hv2].
    rewrite Hv1, Hv2. exists (v1, v2). split; [reflexivity|]. cbn [fst snd].
    split; [lia|]. replace (10 * (i + 1))%Z with (10 * i + 10)%Z by lia.
    unfold RK4, RK4_with in *.
    rewrite !for_each_steps_add by lia. rewrite Hu1, Hu2. auto.
  - cbn [fst snd]. split; [lia|]. split; reflexivity.
  - cbn [fst snd] in H1, H2.
    destruct (RK4_total sin cos y1' 10) as [v1 Hv1].
    destruct (RK4_total sin cos y2' 10) as [v2 Hv2].
    exists y1', y2', (Frame (get_positions sin cos y1') (get_positions sin cos y2') k), (v1, v2).
    split; [exact Hrun|]. split; [exact H1|]. split; [exact H2|].
    split; [|auto]. unfold animate. cbn [fst snd]. cbv zeta. now rewrite Hv1, Hv2.
Qed.

Lemma animation_state_steps_witness :
  exists y1' y2' drawn next,
    animation_state (fun x => x) (fun x => x) 2 (zeros4, zeros4) = Some (y1', y2') /\
    RK4 (fun x => x) (fun x => x) zeros4 (10 * 2) = Some y1' /\
    RK4 (fun x => x) (fun x => x) zeros4 (10 * 2) = Some y2' /\
    animate (fun x => x) (fun x => x) 2 (y1', y2') = Some (drawn, next) /\
    line1 drawn = get_positions (fun x => x) (fun x => x) y1' /\
    line2 drawn = get_positions (fun x => x) (fun x => x) y2' /\
    time_label drawn = 2%Z.
Proof. apply (animation_state_steps (fun x => x) (fun x => x) zeros4 zeros4 2). lia. Defined.

Lemma slope_at_rest (sin cos : float -> float) :
  sin 0 = 0 -> cos 0 = 1 -> slope sin cos zeros4 = Some zeros4.
Proof.
  intros Hsin Hcos. unfold slope, zeros4. cbn [y_0 y_1 y_2 y_3]. cbv zeta.
  change (0 - 0) with 0. change (2 * 0) with 0. rewrite Hsin, Hcos.
  vm_compute. reflexivity.
Qed.

Lemma RK4_body_fixed (slope_fn : vec4 -> option vec4) :
  slope_fn zeros4 = Some zeros4 -> RK4_body slope_fn zeros4 = Some zeros4.
Proof.
  intros H. unfold RK4_body. rewrite H. cbv zeta.
  change (vadd zeros4 (scale 0.5 (scale h zeros4))) with zeros4. rewrite H.
  change (vadd zeros4 (scale 0.5 (scale h zeros4))) with zeros4. rewrite H.
  change (vadd zeros4 (scale h zeros4)) with zeros4. rewrite H. reflexivity.
Qed.

(** X9: the pendulum hanging at rest stays at rest.  With
    [sin 0 = 0] and [cos 0 = 1], the state [0, 0, 0, 0] has a zero slope and
    [RK4] returns it unchanged after any number of steps. *)
Theorem RK4_rest_state (sin cos : float -> float) (n : Z) :
  sin 0 = 0 -> cos 0 = 1 ->
  slope sin cos zeros4 = Some zeros4 /\ RK4 sin cos zeros4 n = Some zeros4.
Proof.
  intros Hsin Hcos. pose proof (slope_at_rest sin cos Hsin Hcos) as Hslope.
  split; [exact Hslope|].
  unfold RK4, RK4_with. destruct (Z_lt_le_dec n 0) as [Hneg | Hpos].
  - now rewrite py_range_nil by lia.
  - destruct (for_each_range (fun _ u => u = zeros4)
                (fun _ u => RK4_body (slope sin cos) u)
                n (Z.to_nat (n - 0))) with (lo := 0%Z) (s := zeros4)
      as (y' & Hrun & ->); try lia; try reflexivity; [|exact Hrun].
    intros k u _ ->. exists zeros4. split; [now apply RK4_body_fixed | reflexivity].
Qed.

Lemma RK4_rest_state_witness :
  slope (fun x => x) (fun _ => 1) zeros4 = Some zeros4 /\
  RK4 (fun x => x) (fun _ => 1) zeros4 7 = Some zeros4.
Proof. apply (RK4_rest_state (fun x => x) (fun _ => 1) 7); reflexivity. Defined.

Lemma sqr_opp (x : float) : sqr (- x) = sqr x.
Proof.
  unfold sqr. apply Prim2SF_inj. rewrite !FloatAxioms.mul_spec, FloatAxioms.opp_spec.
  destruct (Prim2SF x) as [[|] | [|] | | [|] m e]; reflexivity.
Qed.

(** X10: [calc_energy] returns a value for every state (its divisors
    [2*m1] and [2*m2] are not zero), and the energy does not change when
    both momenta are reversed. *)
Theorem calc_energy_reversal (cos : float -> float) (y : vec4) :
  exists energy,
    calc_energy cos y = Some energy /\
    calc_energy cos (reverse_momenta y) = Some energy.
Proof.
  unfold calc_energy, reverse_momenta, py_div. cbn [y_0 y_1 y_2 y_3].
  change (2 * m1 =? 0) with false. change (2 * m2 =? 0) with false.
  rewrite !sqr_opp. eauto.
Qed.

End DoublePendulumProofs.

Module LorenzProofs.
Import Lorenz.

Lemma get_in_range (a : list float) (i : Z) :
  0 <= i < Z.of_nat (length a) -> exists v, get a i = Some v.
Proof.
  intros Hi. unfold get.
  replace (i <? 0) with false by (symmetry; apply Z.ltb_ge; lia).
  apply (lookup_lt_is_Some_2 a (Z.to_nat i)). lia.
Qed.

Lemma set_in_range (a : list float) (i : Z) (v : float) :
  0 <= i < Z.of_nat (length a) ->
  exists a', set a i v = Some a' /\ length a' = length a.
Proof.
  intros Hi. unfold set.
  replace (i <? 0) with false by (symmetry; apply Z.ltb_ge; lia).
  replace (Z.to_nat i <? length a)%nat with true by (symmetry; apply Nat.ltb_lt; lia).
  eexists. split; [reflexivity | apply length_insert].
Qed.

Lemma get_column_in_range (n : nat) (k : Z) (s : state) (i : Z) :
  integrated_upto n k s -> 0 <= i < Z.of_nat n -> exists v, get_column s i = Some v.
Proof.
  intros (H0 & H1 & H2 & _) Hi. unfold get_column.
  destruct (get_in_range (row0 s) i ltac:(lia)) as [x ->].
  destruct (get_in_range (row1 s) i ltac:(lia)) as [y ->].
  destruct (get_in_range (row2 s) i ltac:(lia)) as [z ->]. eauto.
Qed.

(** Assigning column [k] keeps the sizes and appends [k] to the log. *)
Lemma set_column_next (n : nat) (k : Z) (s : state) (v : vec3) :
  integrated_upto n k s -> 0 <= k < Z.of_nat n ->
  exists s', set_column s k v = Some s' /\ integrated_upto n (k + 1) s' /\ t s' = t s.
Proof.
  intros (H0 & H1 & H2 & Ht & Hlog) Hk. unfold set_column.
  destruct (set_in_range (row0 s) k (u_0 v) ltac:(lia)) as (r0 & -> & L0).
  destruct (set_in_range (row1 s) k (u_1 v) ltac:(lia)) as (r1 & -> & L1).
  destruct (set_in_range (row2 s) k (u_2 v) ltac:(lia)) as (r2 & -> & L2).
  eexists. split; [reflexivity|]. split; [|reflexivity].
  unfold integrated_upto. cbn [row0 row1 row2 t written rev].
  rewrite Hlog, py_range_snoc by lia. repeat split; congruence.
Qed.





(** *** The computed trajectory *)

Lemma get_set_same (a a' : list float) (i : Z) (v : float) :
  set a i v = Some a' -> get a' i = Some v.
Proof.
  unfold set, get. destruct (i <? 0); [discriminate|].
  destruct (Z.to_nat i <? length a)%nat eqn:Hlt; [|discriminate].
  intros [= <-]. apply Nat.ltb_lt in Hlt. now apply list_lookup_insert_eq.
Qed.

Lemma get_set_other (a a' : list float) (i j : Z) (v : float) :
  set a i v = Some a' -> j <> i -> get a' j = get a j.
Proof.
  unfold set, get. destruct (i <? 0) eqn:Hi; [discriminate | apply Z.ltb_ge in Hi].
  destruct (Z.to_nat i <? length a)%nat; [|discriminate].
  intros [= <-] Hne. destruct (j <? 0) eqn:Hj; [reflexivity | apply Z.ltb_ge in Hj].
  apply list_lookup_insert_ne. lia.
Qed.

Lemma get_column_set_same (s s' : state) (i : Z) (v : vec3) :
  set_column s i v = Some s' -> get_column s' i = Some v.
Proof.
  unfold set_column, get_column.
  destruct (set (row0 s) i (u_0 v)) as [r0|] eqn:E0; [|discriminate].
  destruct (set (row1 s) i (u_1 v)) as [r1|] eqn:E1; [|discriminate].
  destruct (set (row2 s) i (u_2 v)) as [r2|] eqn:E2; [|discriminate].
  intros [= <-]. cbn [row0 row1 row2].
  rewrite (get_set_same _ _ _ _ E0), (get_set_same _ _ _ _ E1), (get_set_same _ _ _ _ E2).
  now destruct v.
Qed.

Lemma get_column_set_other (s s' : state) (i j : Z) (v : vec3) :
  set_column s i v = Some s' -> j <> i -> get_column s' j = get_column s j.
Proof.
  unfold set_column, get_column.
  destruct (set (row0 s) i (u_0 v)) as [r0|] eqn:E0; [|discriminate].
  destruct (set (row1 s) i (u_1 v)) as [r1|] eqn:E1; [|discriminate].
  destruct (set (row2 s) i (u_2 v)) as [r2|] eqn:E2; [|discriminate].
  intros [= <-] Hne. cbn [row0 row1 row2].
  now rewrite (get_set_other _ _ _ _ _ E0 Hne), (get_set_other _ _ _ _ _ E1 Hne),
    (get_set_other _ _ _ _ _ E2 Hne).
Qed.

(** What one pass through the loop reads and writes. *)
Lemma loop_body_effect (n : nat) (i : Z) (s : state) :
  1 <= i < Z.of_nat n -> integrated_upto n i s ->
  exists t_prev y_prev s',
    get (t s) (i - 1) = Some t_prev /\
    get_column s (i - 1) = Some y_prev /\
    loop_body i s = Some s' /\
    integrated_upto n (i + 1) s' /\
    get_column s' i = Some (next_column t_prev y_prev) /\
    get (t s') i = Some (t_prev + Lorenz.h)%float /\
    forall j, j <> i -> get_column s' j = get_column s j /\ get (t s') j = get (t s) j.
Proof.
  intros Hi Hinv. pose proof Hinv as (H0 & H1 & H2 & Ht & Hlog). unfold loop_body.
  destruct (get_in_range (t s) (i - 1) ltac:(lia)) as [t_prev Htp].
  destruct (get_column_in_range n i s (i - 1) Hinv ltac:(lia)) as [y_prev Hyp].
  rewrite Htp, Hyp. cbv zeta. fold (next_column t_prev y_prev).
  destruct (set_column_next n i s (next_column t_prev y_prev) Hinv ltac:(lia))
    as (s1 & Hset & (K0 & K1 & K2 & Kt & Klog) & Hts).
  rewrite Hset.
  destruct (set_in_range (t s1) i (t_prev + Lorenz.h)%float ltac:(lia)) as (t' & Hsett & Lt).
  rewrite Hsett.
  exists t_prev, y_prev, (State (row0 s1) (row1 s1) (row2 s1) t' (written s1)).
  split; [reflexivity|]. split; [reflexivity|]. split; [reflexivity|].
  split; [unfold integrated_upto; cbn [row0 row1 row2 t written]; repeat split; congruence|].
  split; [exact (get_column_set_same _ _ _ _ Hset)|].
  split; [cbn [t]; exact (get_set_same _ _ _ _ Hsett)|].
  intros j Hj. split.
  - exact (get_column_set_other _ _ _ _ _ Hset Hj).
  - cbn [t]. rewrite (get_set_other _ _ _ _ _ Hsett Hj). now rewrite Hts.
Qed.

(** X11: the arrays hold the whole trajectory when the loop ends.  For a
    step count [n >= 1] the integration returns arrays in which column 0 is
    [1, 1, 1] at time 0 and, for every [1 <= i < n], column [i] is the
    Runge-Kutta step of column [i-1] and [t[i]] is [t[i-1] + h]: no later
    pass overwrites an earlier entry. *)
Theorem integrate_trajectory (n : Z) :
  1 <= n -> exists s, integrate n = Some s /\ trajectory_upto n s.
Proof.
  intros Hn. unfold integrate, np_zeros.
  replace (n <? 0) with false by (symmetry; apply Z.ltb_ge; lia).
  set (r := replicate (Z.to_nat n) 0%float).
  assert (Hinit : integrated_upto (Z.to_nat n) 0 (State r r r r [])).
  { unfold integrated_upto. cbn. pose proof (length_replicate (Z.to_nat n) 0%float). auto. }
  destruct (set_column_next (Z.to_nat n) 0 _ (array3 1 1 1) Hinit ltac:(lia))
    as (s0 & Hset0 & Hinv0 & Ht0).
  rewrite Hset0.
  assert (Htraj0 : trajectory_upto 1 s0).
  { split; [exact (get_column_set_same _ _ _ _ Hset0)|]. split.
    - rewrite Ht0. cbn [t]. unfold get. cbn. apply lookup_replicate_2. lia.
    - intros i Hi. lia. }
  destruct (for_each_range
              (fun k s => 1 <= k /\ integrated_upto (Z.to_nat n) k s /\ trajectory_upto k s)
              loop_body n (Z.to_nat (n - 1))) with (lo := 1) (s := s0)
    as (s & Hrun & _ & _ & Htraj); try lia.
  - intros k s Hk (Hk1 & Hinv & Hc0 & Htime0 & Hrec).
    destruct (loop_body_effect (Z.to_nat n) k s ltac:(lia) Hinv)
      as (t_prev & y_prev & s' & Htp & Hyp & Hbody & Hinv' & Hcol & Htime & Hother).
    exists s'. split; [exact Hbody|]. split; [lia|]. split; [exact Hinv'|].
    split; [|split].
    + destruct (Hother 0 ltac:(lia)) as [-> _]. exact Hc0.
    + destruct (Hother 0 ltac:(lia)) as [_ ->]. exact Htime0.
    + intros i Hi. destruct (Z.eq_dec i k) as [-> | Hne].
      * exists t_prev, y_prev.
        destruct (Hother (k - 1) ltac:(lia)) as [-> ->]. auto.
      * destruct (Hrec i ltac:(lia)) as (tp & yp & A & B & C & D).
        exists tp, yp.
        destruct (Hother (i - 1) ltac:(lia)) as [-> ->].
        destruct (Hother i Hne) as [-> ->]. auto.
  - split; [lia|]. split; [exact Hinv0 | exact Htraj0].
  - exists s. split; assumption.
Qed.

Lemma integrate_trajectory_witness :
  exists s, integrate 3 = Some s /\ trajectory_upto 3 s.
Proof. apply (integrate_trajectory 3). lia. Defined.

End LorenzProofs.
